(** * event_display: the HTTP receiver's middleware, snapshot and start-up

    A shallow embedding of [cmd/event_display/main.go].  Handlers are state
    transformers over the observable effects of one exchange (log entries,
    calls on the response writer, streams closed); the request is passed
    explicitly because the logging middleware replaces its body before it
    hands the request on. *)

From Stdlib Require Import ZArith Lia String Ascii List.
From Stdlib Require Import Strings.Byte.
From stdpp Require Import base option list gmap strings sorting.

Local Open Scope Z_scope.

(** ** Go values used by the program *)

(** A Go [error] is observed through its message. *)
Definition error := string.

(** [http.Header] is [map[string][]string]. *)
Abbreviation Header := (gmap string (list string)).

(** [io.ReadCloser], as the reader sees it: the bytes it still delivers, the
    way it ends ([None] is [io.EOF], [Some e] a failing [Read]) and, for the
    body of a server request, the trailers that arrive after the last byte
    and that net/http hands to the request when the read reaches the end. *)
Record ReadCloser := mkStream {
  rc_data : list byte;
  rc_end : option error;
  rc_trailer : Header
}.

(** A stream that is followed by no trailers. *)
Definition mkReadCloser (data : list byte) (e : option error) : ReadCloser :=
  {| rc_data := data; rc_end := e; rc_trailer := ∅ |}.

(** [io.ReadAll]: everything up to the end of the stream, with the error
    that stopped the read ([io.EOF] is not reported as an error).  The
    stream is left drained; what the read does to the request the stream
    belongs to is [http.after_ReadAll] below. *)
Definition ReadAll (r : ReadCloser) : list byte * option error * ReadCloser :=
  (rc_data r, rc_end r, {| rc_data := []; rc_end := rc_end r; rc_trailer := ∅ |}).

(** [io.NopCloser(bytes.NewBuffer(b))]: an in-memory stream over [b]. *)
Definition NopCloser_NewBuffer (b : list byte) : ReadCloser :=
  {| rc_data := b; rc_end := None; rc_trailer := ∅ |}.

(** [net/url.URL], by its string components. *)
Record URL := mkURL {
  Scheme : string;
  UHost : string;
  Path : string;
  RawQuery : string
}.

Module http.

(** The fields of [http.Request] the program reads or writes. *)
Record Request := mkRequest {
  Method : string;
  URL_ : option URL;
  Proto : string;
  ProtoMajor : Z;
  ProtoMinor : Z;
  Header_ : Header;
  Body : ReadCloser;
  ContentLength : Z;
  TransferEncoding : list string;
  Host : string;
  Trailer : Header;
  RemoteAddr : string;
  RequestURI : string
}.

Definition StatusNoContent : Z := 204.
Definition StatusOK : Z := 200.

(** Calls a handler makes on its [http.ResponseWriter]. *)
Inductive RespCall :=
| WriteHeaderCall (code : Z)
| WriteCall (data : list byte).

(** [req.Body = b]. *)
Definition set_Body (b : ReadCloser) (r : Request) : Request :=
  {| Method := Method r; URL_ := URL_ r; Proto := Proto r;
     ProtoMajor := ProtoMajor r; ProtoMinor := ProtoMinor r;
     Header_ := Header_ r; Body := b; ContentLength := ContentLength r;
     TransferEncoding := TransferEncoding r; Host := Host r;
     Trailer := Trailer r; RemoteAddr := RemoteAddr r;
     RequestURI := RequestURI r |}.

(** [req.Trailer = t]. *)
Definition set_Trailer (t : Header) (r : Request) : Request :=
  {| Method := Method r; URL_ := URL_ r; Proto := Proto r;
     ProtoMajor := ProtoMajor r; ProtoMinor := ProtoMinor r;
     Header_ := Header_ r; Body := Body r; ContentLength := ContentLength r;
     TransferEncoding := TransferEncoding r; Host := Host r;
     Trailer := t; RemoteAddr := RemoteAddr r;
     RequestURI := RequestURI r |}.

(** [mergeSetHeader]: the entries of [src] are written into [dst], over
    the entries [dst] has under the same keys. *)
Definition mergeSetHeader (dst src : Header) : Header := src ∪ dst.

(** What reading the body to its end does to the request: when the read
    reaches the end of the stream net/http merges the trailers that
    followed the body into [req.Trailer]; a read that fails before the end
    leaves the request as it is. *)
Definition after_ReadAll (r : Request) : Request :=
  match rc_end (Body r) with
  | None => set_Trailer (mergeSetHeader (Trailer r) (rc_trailer (Body r))) r
  | Some _ => r
  end.

End http.

(** What one exchange leaves behind. *)
Record World := mkWorld {
  logged : list string;            (* entries of package [log], oldest first *)
  response : list http.RespCall;   (* calls on the response writer, oldest first *)
  closed : list ReadCloser         (* streams [Close] was called on *)
}.

Definition log_entry (s : string) (st : World) : World :=
  {| logged := logged st ++ [s]; response := response st; closed := closed st |}.

(** [fmt.Sprintln] separates its operands by one space; the newline it
    appends ends the log entry. *)
Fixpoint Sprintln (args : list string) : string :=
  match args with
  | [] => ""
  | [a] => a
  | a :: rest => a +:+ " " +:+ Sprintln rest
  end.

(** [log.Println(args...)]. *)
Definition log_Println (args : list string) (st : World) : World :=
  log_entry (Sprintln args) st.

(** [w.WriteHeader(code)]. *)
Definition WriteHeader (code : Z) (st : World) : World :=
  {| logged := logged st; response := response st ++ [http.WriteHeaderCall code];
     closed := closed st |}.

(** [body.Close()]. *)
Definition Close (b : ReadCloser) (st : World) : World :=
  {| logged := logged st; response := response st; closed := closed st ++ [b] |}.

(** What net/http sends for a sequence of calls on a fresh response writer:
    the status is that of the first [WriteHeader], or 200 when [Write] comes
    first or nothing is written; the body is what was passed to [Write]. *)
Fixpoint sent_body (calls : list http.RespCall) : list byte :=
  match calls with
  | [] => []
  | http.WriteHeaderCall _ :: rest => sent_body rest
  | http.WriteCall d :: rest => d ++ sent_body rest
  end.

Definition sent_status (calls : list http.RespCall) : Z :=
  match calls with
  | http.WriteHeaderCall c :: _ => c
  | _ => http.StatusOK
  end.

(** [http.Handler]: [ServeHTTP(w, req)]. *)
Definition Handler := http.Request -> World -> World.

(** [cehttp.Middleware]. *)
Definition Middleware := Handler -> Handler.

(** ** The request snapshot *)

Record LoggableRequest := mkLoggableRequest {
  Method : string;
  URL_ : option URL;
  Proto : string;
  ProtoMajor : Z;
  ProtoMinor : Z;
  Header_ : Header;
  Body : string;
  ContentLength : Z;
  TransferEncoding : list string;
  Host : string;
  Trailer : Header;
  RemoteAddr : string;
  RequestURI : string
}.

(** HTTP path of the health endpoint used for probing the service. *)
Definition healthzPath : string := "/healthz".

(** [healthzMiddleware]: exposes the health endpoint. *)
Definition healthzMiddleware (next : Handler) : Handler :=
  fun req st =>
    if decide (http.RequestURI req = healthzPath)
    then WriteHeader http.StatusNoContent st
    else next req st.

(** [toReq]: reads the body, closes it, puts a fresh reader over the bytes
    read in its place and returns the snapshot.  The request is a pointer in
    the source, so the updated request is returned with the snapshot; the
    fields of the snapshot are read from the request after the body has
    been read and replaced. *)
Definition toReq (req : http.Request) (st : World)
  : LoggableRequest * http.Request * World :=
  let '(body, err, drained) := ReadAll (http.Body req) in
  let st1 := match err with
             | Some _ => log_Println ["failed to read request body"%string] st
             | None => st
             end in
  let st2 := Close drained st1 in
  let req' := http.set_Body (NopCloser_NewBuffer body) (http.after_ReadAll req) in
  ({| Method := http.Method req';
      URL_ := http.URL_ req';
      Proto := http.Proto req';
      ProtoMajor := http.ProtoMajor req';
      ProtoMinor := http.ProtoMinor req';
      Header_ := http.Header_ req';
      Body := string_of_list_byte body;
      ContentLength := http.ContentLength req';
      TransferEncoding := http.TransferEncoding req';
      Host := http.Host req';
      Trailer := http.Trailer req';
      RemoteAddr := http.RemoteAddr req';
      RequestURI := http.RequestURI req' |}, req', st2).

Section Receiver.

(** [json.MarshalIndent] on a snapshot: the bytes and the error it
    returns.  The handlers are parametric in it. *)
Variable MarshalIndent : LoggableRequest -> list byte * option error.

(** [logRequest]. *)
Definition logRequest (req : http.Request) (st : World) : http.Request * World :=
  let '(snapshot, req', st1) := toReq req st in
  let '(b, err) := MarshalIndent snapshot in
  let st2 := match err with
             | Some e => log_Println ["failed to marshal request"%string; e] st1
             | None => st1
             end in
  (req', log_Println [string_of_list_byte b] st2).

(** [requestLoggingMiddleware]: logs incoming requests. *)
Definition requestLoggingMiddleware (enabled : bool) : Middleware :=
  fun next req st =>
    if enabled
    then let '(req', st') := logRequest req st in next req' st'
    else next req st.

End Receiver.

(** ** The middleware chain

    [run] hands [healthzMiddleware] and then the logging middleware to
    [cehttp.WithMiddleware].  Each call appends its middleware to the
    protocol's list, and the SDK wraps the receiving handler with
    [for _, m := range middleware { h = m(h) }] when it opens the listener,
    so that [WithMiddleware(foo), WithMiddleware(bar)] serves
    [bar(foo(original))]. *)
Definition attachMiddleware (h : Handler) (middleware : list Middleware) : Handler :=
  fold_left (fun acc m => m acc) middleware h.

(** The options of [run], in the order it lists them. *)
Definition receiverMiddleware (MarshalIndent : LoggableRequest -> list byte * option error)
    (requestLoggingEnabled : bool) : list Middleware :=
  [healthzMiddleware; requestLoggingMiddleware MarshalIndent requestLoggingEnabled].

(** The handler the listener serves, over the SDK's own handler [base]. *)
Definition receiverHandler (MarshalIndent : LoggableRequest -> list byte * option error)
    (requestLoggingEnabled : bool) (base : Handler) : Handler :=
  attachMiddleware base (receiverMiddleware MarshalIndent requestLoggingEnabled).

(** ** Start-up *)

(** [strconv.ParseBool], its boolean result ([false] with the syntax error). *)
Definition ParseBool (str : string) : bool :=
  bool_decide (str ∈ ["1"; "t"; "T"; "true"; "TRUE"; "True"]%string).

(** What the process does, in order. *)
Inductive ProcEvent (Config : Type) :=
| Logged (entry : string)
| ClientCreated (requestLoggingEnabled : bool)
| TracingSetUp (conf : Config)
| ReceiverStarted
| TracerShutdown
| Exit (code : Z).

Arguments Logged {Config} entry.
Arguments ClientCreated {Config} requestLoggingEnabled.
Arguments TracingSetUp {Config} conf.
Arguments ReceiverStarted {Config}.
Arguments TracerShutdown {Config}.
Arguments Exit {Config} code.

(** The collaborators of [run]: the environment and the outcome of each
    library call.  [JSONToTracingConfig] returns a configuration together
    with its error, as the Go function does; [StartReceiver] is the error
    the blocking receive loop returns with, if it returns. *)
Record Collaborators (Config : Type) := mkCollaborators {
  Getenv : string -> string;
  NewClientHTTP : option error;
  JSONToTracingConfig : string -> Config * option error;
  SetupPublishingWithStaticConfig : Config -> option error;
  StartReceiver : option error
}.

Arguments Getenv {Config} _ _.
Arguments NewClientHTTP {Config} _.
Arguments JSONToTracingConfig {Config} _ _.
Arguments SetupPublishingWithStaticConfig {Config} _ _.
Arguments StartReceiver {Config} _.

(** [log.Fatal] and [log.Fatalf]: the entry, then [os.Exit(1)]; deferred
    calls do not run. *)
Definition log_Fatal {Config} (entry : string) : list (ProcEvent Config) :=
  [Logged entry; Exit 1].

(** The first statement of [run]: the notice it logs when request logging
    is enabled. *)
Definition logging_notice {Config} (c : Collaborators Config) : list (ProcEvent Config) :=
  if ParseBool (Getenv c "REQUEST_LOGGING_ENABLED")
  then [Logged "Request logging enabled, request logging is not recommended for production since it might log sensitive information"%string]
  else [].

(** [run]. *)
Definition run {Config} (c : Collaborators Config) : list (ProcEvent Config) :=
  let requestLoggingEnabled := ParseBool (Getenv c "REQUEST_LOGGING_ENABLED") in
  logging_notice c ++
  match NewClientHTTP c with
  | Some err => log_Fatal ("Failed to create client: " +:+ err)
  | None =>
    ClientCreated requestLoggingEnabled ::
    let '(conf, err) := JSONToTracingConfig c (Getenv c "K_CONFIG_TRACING") in
    (match err with
     | Some e => [Logged ("Failed to read tracing config, using the no-op default: " +:+ e)]
     | None => []
     end) ++
    match SetupPublishingWithStaticConfig c conf with
    | Some e => log_Fatal ("Failed to initialize tracing: " +:+ e)
    | None =>
      TracingSetUp conf :: ReceiverStarted ::
      match StartReceiver c with
      | Some e => log_Fatal ("Error during receiver's runtime: " +:+ e)
      | None => [TracerShutdown]
      end
    end
  end.

(** ** encoding/json, as far as [display] and the snapshot use it *)

(** Encoded JSON is a byte buffer. *)
Definition text := list ascii.

Definition code (c : ascii) : N := N_of_ascii c.

Definition quote : ascii := "034"%char.
Definition backslash : ascii := "092"%char.

Definition hex : text := list_ascii_of_string "0123456789abcdef".
Definition hexdigit (n : N) : ascii := nth (N.to_nat n) hex "0"%char.

Module utf8.

Definition RuneError : N := 0xFFFD.
Definition RuneSelf : N := 0x80.
Definition UTFMax : nat := 4.

(** The table [first]: what the first byte of a sequence announces.
    [0xF0] is ASCII, [0xF1] an illegal first byte, otherwise the low bits
    are the length and the high bits index [acceptRanges]. *)
Definition first (b : N) : N :=
  (if b <? 0x80 then 0xF0
   else if b <? 0xC2 then 0xF1
   else if b <? 0xE0 then 0x02
   else if b =? 0xE0 then 0x13
   else if b <? 0xED then 0x03
   else if b =? 0xED then 0x23
   else if b <? 0xF0 then 0x03
   else if b =? 0xF0 then 0x34
   else if b <? 0xF4 then 0x04
   else if b =? 0xF4 then 0x44
   else 0xF1)%N.

(** The table [acceptRanges]: bounds of the second byte. *)
Definition acceptRanges (i : N) : N * N :=
  (if i =? 1 then (0xA0, 0xBF)
   else if i =? 2 then (0x80, 0x9F)
   else if i =? 3 then (0x90, 0xBF)
   else if i =? 4 then (0x80, 0x8F)
   else (0x80, 0xBF))%N.

Definition locb : N := 0x80.
Definition hicb : N := 0xBF.

Definition at_ (s : text) (i : nat) : N := code (nth i s zero).

(** [utf8.DecodeRuneInString]: the rune at the head of [s] and its width
    in bytes; an invalid sequence yields [(RuneError, 1)]. *)
Definition DecodeRuneInString (s : text) : N * nat :=
  let n := length s in
  if (n <? 1)%nat then (RuneError, 0%nat) else
  let s0 := at_ s 0 in
  let x := first s0 in
  if (0xF0 <=? x)%N then ((if N.odd x then RuneError else s0), 1%nat) else
  let sz := N.to_nat (N.land x 7) in
  let '(lo, hi) := acceptRanges (N.shiftr x 4) in
  if (n <? sz)%nat then (RuneError, 1%nat) else
  let s1 := at_ s 1 in
  if ((s1 <? lo) || (hi <? s1))%N then (RuneError, 1%nat) else
  if (sz <=? 2)%nat
  then (N.lor (N.shiftl (N.land s0 0x1F) 6) (N.land s1 0x3F), 2%nat) else
  let s2 := at_ s 2 in
  if ((s2 <? locb) || (hicb <? s2))%N then (RuneError, 1%nat) else
  if (sz <=? 3)%nat
  then (N.lor (N.lor (N.shiftl (N.land s0 0x0F) 12) (N.shiftl (N.land s1 0x3F) 6))
              (N.land s2 0x3F), 3%nat) else
  let s3 := at_ s 3 in
  if ((s3 <? locb) || (hicb <? s3))%N then (RuneError, 1%nat) else
  (N.lor (N.lor (N.lor (N.shiftl (N.land s0 0x07) 18) (N.shiftl (N.land s1 0x3F) 12))
                (N.shiftl (N.land s2 0x3F) 6))
         (N.land s3 0x3F), 4%nat).

End utf8.

Module json.

(** [htmlSafeSet]: the ASCII bytes [Marshal] copies unescaped. *)
Definition htmlSafeSet (b : N) : bool :=
  ((0x20 <=? b) && (b <? 0x80) &&
   negb ((b =? 0x22) || (b =? 0x26) || (b =? 0x3C) || (b =? 0x3E) || (b =? 0x5C)))%N.

(** The escape written for an ASCII byte outside [htmlSafeSet]. *)
Definition escape (c : ascii) : text :=
  let b := code c in
  (if (b =? 0x5C) || (b =? 0x22) then [backslash; c]
   else if b =? 0x08 then [backslash; "b"%char]
   else if b =? 0x0C then [backslash; "f"%char]
   else if b =? 0x0A then [backslash; "n"%char]
   else if b =? 0x0D then [backslash; "r"%char]
   else if b =? 0x09 then [backslash; "t"%char]
   else [backslash; "u"%char; "0"%char; "0"%char;
         hexdigit (N.shiftr b 4); hexdigit (N.land b 0xF)])%N.

(** The loop of [appendString] from the current index on; [fuel] bounds
    the number of iterations, each of which consumes at least one byte. *)
Fixpoint appendString_from (fuel : nat) (src : text) : text :=
  match fuel, src with
  | S fuel', c :: rest =>
    let b := code c in
    if (b <? utf8.RuneSelf)%N then
      (if htmlSafeSet b then [c] else escape c) ++ appendString_from fuel' rest
    else
      let '(r, size) := utf8.DecodeRuneInString (take utf8.UTFMax src) in
      if (r =? utf8.RuneError)%N && (size =? 1)%nat then
        [backslash; "u"%char; "f"%char; "f"%char; "f"%char; "d"%char]
          ++ appendString_from fuel' (drop size src)
      else if ((r =? 0x2028) || (r =? 0x2029))%N then
        [backslash; "u"%char; "2"%char; "0"%char; "2"%char; hexdigit (N.land r 0xF)]
          ++ appendString_from fuel' (drop size src)
      else take size src ++ appendString_from fuel' (drop size src)
  | _, _ => []
  end.

(** [appendString(dst, src, escapeHTML = true)]: a quoted string literal. *)
Definition appendString (src : string) : text :=
  let s := list_ascii_of_string src in
  quote :: appendString_from (length s) s ++ [quote].

Definition digit (n : N) : ascii := ascii_of_N (48 + n).

Fixpoint digits_from (fuel : nat) (n : N) (acc : text) : text :=
  match fuel with
  | O => acc
  | S fuel' =>
    let acc' := digit (n mod 10) :: acc in
    if (n <? 10)%N then acc' else digits_from fuel' (n / 10) acc'
  end.

Definition digits (n : N) : text := digits_from (S (N.to_nat (N.log2 n))) n [].

(** [strconv.AppendInt(dst, i, 10)]. *)
Definition AppendInt (i : Z) : text :=
  if i <? 0 then "-"%char :: digits (Z.to_N (- i)) else digits (Z.to_N i).

End json.

(** ** Events *)

Module cloudevents.

(** An extension attribute value, as [interface{}]: the scalar kinds
    [Marshal] writes, and a value whose encoder reports an error (a float
    that is not a number, a [MarshalJSON] method that fails). *)
Inductive ExtValue :=
| ExtString (s : string)
| ExtInt (i : Z)
| ExtBool (b : bool)
| ExtFailing (e : error).

(** What [display] reads of an event: the encoded payload, the result of
    [Context.GetType()] and the result of [Context.GetExtensions()], a
    [map[string]interface{}] that is [nil] ([None]) or a map. *)
Record Event := mkEvent {
  DataEncoded : list byte;
  GetType : string;
  GetExtensions : option (gmap string ExtValue)
}.

End cloudevents.

Module Marshal.
Import cloudevents.

Definition encodeValue (v : ExtValue) : text + error :=
  match v with
  | ExtString s => inl (json.appendString s)
  | ExtInt i => inl (json.AppendInt i)
  | ExtBool true => inl (list_ascii_of_string "true")
  | ExtBool false => inl (list_ascii_of_string "false")
  | ExtFailing e => inr e
  end.

(** The body of the map encoder's loop over the sorted entries: a comma
    before every entry but the first, the key, a colon, the value. *)
Fixpoint encodeMembers (i : nat) (sv : list (string * ExtValue)) : text + error :=
  match sv with
  | [] => inl []
  | (k, v) :: rest =>
    match encodeValue v with
    | inr e => inr e
    | inl tv =>
      match encodeMembers (S i) rest with
      | inr e => inr e
      | inl tr =>
        inl ((if (0 <? i)%nat then [","%char] else []) ++
             json.appendString k ++ ":"%char :: tv ++ tr)
      end
    end
  end.

(** The entries of a map in the order [Marshal] writes them: by key. *)
Definition sortedEntries (m : gmap string ExtValue) : list (string * ExtValue) :=
  merge_sort (fun a b => Is_true (String.leb a.1 b.1)) (map_to_list m).

(** [json.Marshal] on [map[string]interface{}]: [null] for the nil map,
    an object otherwise; no bytes and the error when a value fails. *)
Definition Marshal (m : option (gmap string ExtValue)) : text * option error :=
  match m with
  | None => (list_ascii_of_string "null", None)
  | Some m =>
    match encodeMembers 0 (sortedEntries m) with
    | inl t => ("{"%char :: t ++ ["}"%char], None)
    | inr e => ([], Some e)
    end
  end.

End Marshal.

(** The entry [display] formats: an opening brace, then the keys data, type
    and extensions, each in double quotes and followed by a colon, a space
    and its [%s] operand, separated by a comma and a space, then a closing
    brace. *)
Definition display_format (data type extensions : string) : string :=
  "{" +:+ String quote "data" +:+ String quote ": " +:+ data +:+
  ", " +:+ String quote "type" +:+ String quote ": " +:+ type +:+
  ", " +:+ String quote "extensions" +:+ String quote ": " +:+ extensions +:+ "}".

(** [display]: prints the given event. *)
Definition display (event : cloudevents.Event) (st : World) : World :=
  let '(jsonstr, _) := Marshal.Marshal (cloudevents.GetExtensions event) in
  log_entry (display_format (string_of_list_byte (cloudevents.DataEncoded event))
                            (cloudevents.GetType event)
                            (string_of_list_ascii jsonstr)) st.

(** ** A recogniser of JSON texts

    The grammar of RFC 8259 without insignificant white space, fractions and
    exponents: every text it accepts is a JSON text. *)
Module Grammar.

Definition same (c d : ascii) : bool := bool_decide (c = d).

Definition is_digit (c : ascii) : bool := ((48 <=? code c) && (code c <=? 57))%N.

Definition is_hex (c : ascii) : bool :=
  (is_digit c || ((65 <=? code c) && (code c <=? 70)) ||
   ((97 <=? code c) && (code c <=? 102)))%N.

Definition is_escape (c : ascii) : bool :=
  same c quote || same c backslash || same c "/"%char || same c "b"%char || same c "f"%char ||
  same c "n"%char || same c "r"%char || same c "t"%char.

(** After the opening quote: the rest of a string literal. *)
Fixpoint scan_string (s : text) : option text :=
  match s with
  | [] => None
  | c :: rest =>
    if same c quote then Some rest
    else if same c backslash then
      match rest with
      | e :: rest1 =>
        if is_escape e then scan_string rest1
        else if same e "u"%char then
          match rest1 with
          | h1 :: h2 :: h3 :: h4 :: rest2 =>
            if is_hex h1 && is_hex h2 && is_hex h3 && is_hex h4
            then scan_string rest2 else None
          | _ => None
          end
        else None
      | [] => None
      end
    else if (code c <? 0x20)%N then None
    else scan_string rest
  end.

Fixpoint skip_digits (s : text) : text :=
  match s with
  | c :: rest => if is_digit c then skip_digits rest else s
  | [] => []
  end.

(** An integer: an optional sign, then [0] or a digit sequence that does
    not start with [0]. *)
Definition scan_number (s : text) : option text :=
  let s1 := match s with
            | c :: rest => if same c "-"%char then rest else s
            | [] => s
            end in
  match s1 with
  | c :: rest =>
    if same c "0"%char then Some rest
    else if is_digit c then Some (skip_digits rest)
    else None
  | [] => None
  end.

Fixpoint strip (p s : text) : option text :=
  match p, s with
  | [], _ => Some s
  | a :: p', b :: s' => if same a b then strip p' s' else None
  | _ :: _, [] => None
  end.

Definition lit (p : string) (s : text) : option text := strip (list_ascii_of_string p) s.

(** [scan_value] reads one value, [scan_elements] what follows the opening
    bracket of an array that is not empty, [scan_members] what follows the
    opening brace of an object that is not empty. *)
Fixpoint scan_value (fuel : nat) (s : text) : option text :=
  match fuel with
  | O => None
  | S fuel' =>
    match s with
    | [] => None
    | c :: rest =>
      if same c quote then scan_string rest
      else if same c "{"%char then
        match rest with
        | d :: rest1 => if same d "}"%char then Some rest1 else scan_members fuel' rest
        | [] => None
        end
      else if same c "["%char then
        match rest with
        | d :: rest1 => if same d "]"%char then Some rest1 else scan_elements fuel' rest
        | [] => None
        end
      else if same c "n"%char then lit "null" s
      else if same c "t"%char then lit "true" s
      else if same c "f"%char then lit "false" s
      else scan_number s
    end
  end
with scan_elements (fuel : nat) (s : text) : option text :=
  match fuel with
  | O => None
  | S fuel' =>
    match scan_value fuel' s with
    | Some (c :: rest) =>
      if same c "]"%char then Some rest
      else if same c ","%char then scan_elements fuel' rest
      else None
    | _ => None
    end
  end
with scan_members (fuel : nat) (s : text) : option text :=
  match fuel with
  | O => None
  | S fuel' =>
    match s with
    | q :: s1 =>
      if same q quote then
        match scan_string s1 with
        | Some (c :: s2) =>
          if same c ":"%char then
            match scan_value fuel' s2 with
            | Some (d :: rest) =>
              if same d "}"%char then Some rest
              else if same d ","%char then scan_members fuel' rest
              else None
            | _ => None
            end
          else None
        | _ => None
        end
      else None
    | [] => None
    end
  end.

(** The whole text is one JSON value. *)
Definition valid (s : text) : bool :=
  match scan_value (S (length s)) s with
  | Some [] => true
  | _ => false
  end.

End Grammar.

(** ** The snapshot as encoding/json renders it

    The struct encoder walks the fields in declaration order and skips a
    field when its tag carries [omitempty] and [isEmptyValue] holds. *)
Module Snapshot.

(** The Go values the fields of [LoggableRequest] hold. *)
Inductive GoValue :=
| GoString (s : string)
| GoInt (i : Z)
| GoURLPtr (u : option URL)
| GoHeader (h : Header)
| GoStrings (l : list string).

(** [isEmptyValue]: the empty string, zero, the nil pointer, a map or a
    slice of length zero. *)
Definition isEmptyValue (v : GoValue) : bool :=
  match v with
  | GoString s => (String.length s =? 0)%nat
  | GoInt i => i =? 0
  | GoURLPtr u => bool_decide (u = None)
  | GoHeader h => (size h =? 0)%nat
  | GoStrings l => (length l =? 0)%nat
  end.

(** A field with its struct tag. *)
Record Field := mkField {
  name : string;
  omitEmpty : bool;
  value : GoValue
}.

(** The fields of [LoggableRequest] with their tags. *)
Definition fields (r : LoggableRequest) : list Field :=
  [ mkField "method" true (GoString (Method r));
    mkField "URL" true (GoURLPtr (URL_ r));
    mkField "proto" true (GoString (Proto r));
    mkField "protoMajor" true (GoInt (ProtoMajor r));
    mkField "protoMinor" true (GoInt (ProtoMinor r));
    mkField "headers" true (GoHeader (Header_ r));
    mkField "body" true (GoString (Body r));
    mkField "contentLength" true (GoInt (ContentLength r));
    mkField "transferEncoding" true (GoStrings (TransferEncoding r));
    mkField "host" true (GoString (Host r));
    mkField "trailer" true (GoHeader (Trailer r));
    mkField "remoteAddr" false (GoString (RemoteAddr r));
    mkField "requestURI" false (GoString (RequestURI r)) ]%string.

Definition skipped (f : Field) : bool := omitEmpty f && isEmptyValue (value f).

(** The fields that reach the output, in order. *)
Definition rendered (r : LoggableRequest) : list Field :=
  List.filter (fun f => negb (skipped f)) (fields r).

(** The keys of the rendered object. *)
Definition keys (r : LoggableRequest) : list string := name <$> rendered r.

End Snapshot.

(** ** The process environment and [main] *)

(** [os.LookupEnv]: the value of the variable and whether it is set. *)
Definition LookupEnv (environ : gmap string string) (key : string) : string * bool :=
  match environ !! key with
  | Some value => (value, true)
  | None => (""%string, false)
  end.

(** [os.Getenv]: the value, empty when the variable is not set. *)
Definition os_Getenv (environ : gmap string string) (key : string) : string :=
  (LookupEnv environ key).1.

(** [getEnv]. *)
Definition getEnv (environ : gmap string string) (key fallback : string) : string :=
  let '(value, ok) := LookupEnv environ key in
  if ok then value else fallback.

(** What [main] meets: the environment, the outcome of opening a path for
    appending, and the outcomes of the library calls of [run]. *)
Record Process (Config : Type) := mkProcess {
  environ : gmap string string;
  OpenFile : string -> option error;
  client : option error;
  tracingConfig : string -> Config * option error;
  tracer : Config -> option error;
  receiver : option error
}.

Arguments environ {Config} _.
Arguments OpenFile {Config} _ _.
Arguments client {Config} _.
Arguments tracingConfig {Config} _ _.
Arguments tracer {Config} _ _.
Arguments receiver {Config} _.

(** The collaborators [run] sees in a process: it reads the environment
    with [os.Getenv]. *)
Definition collaborators {Config} (p : Process Config) : Collaborators Config :=
  {| Getenv := os_Getenv (environ p);
     NewClientHTTP := client p;
     JSONToTracingConfig := tracingConfig p;
     SetupPublishingWithStaticConfig := tracer p;
     StartReceiver := receiver p |}.

(** What [main] does, in order. *)
Inductive MainEvent (Config : Type) :=
| OpenLogFile (path : string)
| Panic (e : error)
| Running (ev : ProcEvent Config)
| CloseLogFile.

Arguments OpenLogFile {Config} path.
Arguments Panic {Config} e.
Arguments Running {Config} ev.
Arguments CloseLogFile {Config}.

(** [os.Exit] was called: the deferred calls of the callers do not run. *)
Definition exited {Config} (trace : list (ProcEvent Config)) : bool :=
  existsb (fun ev => match ev with Exit _ => true | _ => false end) trace.

(** [main]: opens the log file, panics when that fails, defers closing it
    and calls [run]. *)
Definition main {Config} (p : Process Config) : list (MainEvent Config) :=
  let path := getEnv (environ p) "LOG_FILE_PATH" "/var/log/app.log" in
  OpenLogFile path ::
  match OpenFile p path with
  | Some err => [Panic err]
  | None =>
    let trace := run (collaborators p) in
    (Running <$> trace) ++ (if exited trace then [] else [CloseLogFile])
  end.

(** [run] meets no failure. *)
Definition succeeds {Config} (c : Collaborators Config) : Prop :=
  NewClientHTTP c = None
  /\ SetupPublishingWithStaticConfig c (JSONToTracingConfig c (Getenv c "K_CONFIG_TRACING")).1 = None
  /\ StartReceiver c = None.

(** The notice of [run] about request logging. *)
Definition notice : string :=
  "Request logging enabled, request logging is not recommended for production since it might log sensitive information".

(** The keys of [LoggableRequest] in the order of its fields. *)
Definition declared_keys : list string :=
  ["method"; "URL"; "proto"; "protoMajor"; "protoMinor"; "headers"; "body";
   "contentLength"; "transferEncoding"; "host"; "trailer"; "remoteAddr";
   "requestURI"]%string.

(** ** Concrete exchanges used in the examples *)

(** Nothing logged, written or closed yet. *)
Definition idle : World := mkWorld [] [] [].

Definition request_to (method target : string) (body : ReadCloser) : http.Request :=
  http.mkRequest method None "HTTP/1.1" 1 1 ∅ body 0 [] "sink.example" ∅
                 "10.0.0.7:41234" target.

Definition no_body : ReadCloser := mkReadCloser [] None.

(** A probe: [GET /healthz]. *)
Definition probe : http.Request := request_to "GET" "/healthz" no_body.

(** A delivery whose body arrives whole, and one whose read fails after the
    first bytes. *)
Definition delivery : http.Request :=
  request_to "POST" "/" (mkReadCloser (list_byte_of_string "{}") None).

Definition broken_delivery : http.Request :=
  request_to "POST" "/" (mkReadCloser (list_byte_of_string "{") (Some "unexpected EOF"%string)).

(** A chunked delivery whose body is followed by a trailer the request did
    not announce. *)
Definition trailing_delivery : http.Request :=
  request_to "POST" "/"
    (mkStream (list_byte_of_string "{}") None {[ "X-Checksum"%string := ["9f2c"%string] ]}).

(** A base handler that answers 200 with the bytes it could read. *)
Definition echo : Handler :=
  fun req st =>
    {| logged := logged st;
       response := response st ++ [http.WriteHeaderCall http.StatusOK;
                                   http.WriteCall (rc_data (http.Body req))];
       closed := closed st |}.

(** An encoder that writes the request target only, and one that fails. *)
Definition target_only (r : LoggableRequest) : list byte * option error :=
  (list_byte_of_string (RequestURI r), None).

Definition failing_encoder (r : LoggableRequest) : list byte * option error :=
  ([], Some "json: unsupported value"%string).

(** A start-up in which the tracing configuration does not parse, and one
    in which the tracer cannot be built.  The configuration is named by a
    string here. *)
Definition bad_tracing_json : Collaborators string :=
  {| Getenv := fun key => if decide (key = "K_CONFIG_TRACING"%string)
                          then "{not json"%string else ""%string;
     NewClientHTTP := None;
     JSONToTracingConfig := fun raw =>
       if decide (raw = ""%string) then ("noop"%string, Some "empty json tracing config"%string)
       else ("noop"%string, Some "invalid character 'n' looking for beginning of object key string"%string);
     SetupPublishingWithStaticConfig := fun _ => None;
     StartReceiver := None |}.

Definition tracer_fails : Collaborators string :=
  {| Getenv := fun _ => ""%string;
     NewClientHTTP := None;
     JSONToTracingConfig := fun raw => ("zipkin"%string, None);
     SetupPublishingWithStaticConfig := fun _ => Some "no exporter"%string;
     StartReceiver := None |}.

(** A snapshot with every field empty or zero. *)
Definition empty_snapshot : LoggableRequest :=
  mkLoggableRequest "" None "" 0 0 ∅ "" 0 [] "" ∅ "" "".


(** An event without extension attributes, as the SDK presents it (the
    extension map is nil), the same event with a map that is empty but not
    nil, an event with one extension, and one whose extension cannot be
    encoded. *)
Definition bare_event : cloudevents.Event :=
  cloudevents.mkEvent (list_byte_of_string "{}") "sample.created" None.

Definition empty_map_event : cloudevents.Event :=
  cloudevents.mkEvent (list_byte_of_string "{}") "sample.created" (Some ∅).

Definition priority_event : cloudevents.Event :=
  cloudevents.mkEvent (list_byte_of_string "{}") "sample.created"
    (Some {[ "priority"%string := cloudevents.ExtInt 1 ]}).

Definition unencodable_event : cloudevents.Event :=
  cloudevents.mkEvent (list_byte_of_string "{}") "sample.created"
    (Some {[ "ratio"%string := cloudevents.ExtFailing "json: unsupported value: NaN" ]}).

(** An event with one extension that encodes and one that does not. *)
Definition mixed_event : cloudevents.Event :=
  cloudevents.mkEvent (list_byte_of_string "{}") "sample.created"
    (Some (<[ "priority"%string := cloudevents.ExtInt 1 ]>
             {[ "ratio"%string := cloudevents.ExtFailing "json: unsupported value: NaN" ]})).

(** A process whose log file opens and whose libraries all succeed, with
    request logging switched on; one whose log file path is set to the empty
    string and cannot be opened; one whose receiver stops with an error. *)
Definition healthy_process : Process string :=
  {| environ := {[ "REQUEST_LOGGING_ENABLED"%string := "true"%string ]};
     OpenFile := fun path => None;
     client := None;
     tracingConfig := fun raw => ("noop"%string, Some "empty json tracing config"%string);
     tracer := fun _ => None;
     receiver := None |}.

Definition unopenable_process : Process string :=
  {| environ := {[ "LOG_FILE_PATH"%string := ""%string ]};
     OpenFile := fun path => if decide (path = ""%string)
                             then Some "open : no such file or directory"%string else None;
     client := None;
     tracingConfig := fun raw => ("noop"%string, None);
     tracer := fun _ => None;
     receiver := None |}.

Definition stopping_process : Process string :=
  {| environ := ∅;
     OpenFile := fun path => None;
     client := None;
     tracingConfig := fun raw => ("noop"%string, None);
     tracer := fun _ => None;
     receiver := Some "listen tcp :8080: bind: address already in use"%string |}.

(** A start-up in which the client cannot be created. *)
Definition no_client : Collaborators string :=
  {| Getenv := fun _ => ""%string;
     NewClientHTTP := Some "unsupported option"%string;
     JSONToTracingConfig := fun raw => ("noop"%string, None);
     SetupPublishingWithStaticConfig := fun _ => None;
     StartReceiver := None |}.

(** ** Predicates on encoded bytes *)

(** The number a digit sequence denotes. *)
Definition numeral_value (t : text) : N :=
  fold_left (fun acc c => (10 * acc + (code c - 48))%N) t 0%N.


(** A byte that stands for itself inside a string literal. *)
Definition plain (c : ascii) : Prop :=
  (0x20 <= code c)%N /\ code c <> 34%N /\ code c <> 92%N.

(** A byte of a multi-byte UTF-8 sequence. *)
Definition high (c : ascii) : Prop := (0x80 <= code c)%N.

(** What follows a number does not continue it. *)
Definition delimited (rest : text) : Prop :=
  match rest with
  | c :: _ => Grammar.is_digit c = false
  | [] => True
  end.

(** * Properties *)

Lemma healthz_match next req st :
  http.RequestURI req = healthzPath ->
  healthzMiddleware next req st = WriteHeader http.StatusNoContent st.
Proof. intros H. unfold healthzMiddleware. by rewrite decide_True. Qed.

Lemma healthz_pass next req st :
  http.RequestURI req <> healthzPath ->
  healthzMiddleware next req st = next req st.
Proof. intros H. unfold healthzMiddleware. by rewrite decide_False. Qed.

Lemma sent_body_app l1 l2 : sent_body (l1 ++ l2) = sent_body l1 ++ sent_body l2.
Proof.
  induction l1 as [|[c|d] l1 IH]; simpl; [done | done |].
  by rewrite IH, app_assoc.
Qed.

(** C2: on a request whose target is exactly [/healthz] the health filter
    writes the header 204, writes no body, logs nothing, closes nothing and
    does so whatever the next handler, the method and the body are; on any
    other target it is the next handler applied to the same request and the
    same response. *)
Theorem healthzMiddleware_probe_or_next (next : Handler) (req : http.Request) (st : World) :
  (http.RequestURI req = healthzPath ->
     response (healthzMiddleware next req st)
       = response st ++ [http.WriteHeaderCall http.StatusNoContent]
     /\ sent_body (response (healthzMiddleware next req st)) = sent_body (response st)
     /\ (response st = [] ->
         sent_status (response (healthzMiddleware next req st)) = 204
         /\ sent_body (response (healthzMiddleware next req st)) = [])
     /\ logged (healthzMiddleware next req st) = logged st
     /\ closed (healthzMiddleware next req st) = closed st
     /\ (forall (next' : Handler) (req' : http.Request),
           http.RequestURI req' = healthzPath ->
           healthzMiddleware next' req' st = healthzMiddleware next req st))
  /\ (http.RequestURI req <> healthzPath ->
     healthzMiddleware next req st = next req st).
Proof.
  split; [| apply healthz_pass].
  intros H. rewrite (healthz_match _ _ _ H).
  assert (Hbody : sent_body (response (WriteHeader http.StatusNoContent st))
                  = sent_body (response st)).
  { simpl. rewrite sent_body_app. simpl. by rewrite app_nil_r. }
  split; [done |]. split; [exact Hbody |].
  split; [| split; [done | split; [done |]]].
  - intros Hfresh. rewrite Hbody. simpl. by rewrite Hfresh.
  - intros next' req' H'. by rewrite (healthz_match _ _ _ H').
Qed.

Lemma healthzMiddleware_probe_or_next_witness :
  (sent_status (response (healthzMiddleware echo probe idle)) = 204
   /\ sent_body (response (healthzMiddleware echo probe idle)) = [])
  /\ healthzMiddleware echo delivery idle = echo delivery idle.
Proof.
  split.
  - apply (proj1 (healthzMiddleware_probe_or_next echo probe idle)); reflexivity.
  - apply (proj2 (healthzMiddleware_probe_or_next echo delivery idle)). vm_compute. discriminate.
Defined.

Lemma append_empty_inv (a b : string) : a +:+ b = a -> b = ""%string.
Proof.
  induction a as [|c a IH]; simpl; [done |].
  intros H. injection H as H. auto.
Qed.

(** C9: the comparison is an equality of strings: a target that continues
    after [/healthz], by a query string or by a slash, goes to the next
    handler and receives no 204 from the filter. *)
Theorem healthzMiddleware_exact_target (next : Handler) (req : http.Request) (st : World) :
  (forall suffix : string,
      suffix <> ""%string ->
      http.RequestURI req = healthzPath +:+ suffix ->
      healthzMiddleware next req st = next req st)
  /\ (http.RequestURI req = "/healthz?probe=1"%string ->
      healthzMiddleware next req st = next req st)
  /\ (http.RequestURI req = "/healthz/"%string ->
      healthzMiddleware next req st = next req st).
Proof.
  split; [| split].
  - intros suffix Hs Hreq. apply healthz_pass. rewrite Hreq.
    intros Heq. by apply append_empty_inv in Heq.
  - intros Hreq. apply healthz_pass. by rewrite Hreq.
  - intros Hreq. apply healthz_pass. by rewrite Hreq.
Qed.

Lemma healthzMiddleware_exact_target_witness :
  healthzMiddleware echo (request_to "GET" "/healthz?probe=1" no_body) idle
    = echo (request_to "GET" "/healthz?probe=1" no_body) idle
  /\ healthzMiddleware echo (request_to "GET" "/healthz/" no_body) idle
    = echo (request_to "GET" "/healthz/" no_body) idle.
Proof.
  split.
  - apply (proj1 (healthzMiddleware_exact_target echo
                    (request_to "GET" "/healthz?probe=1" no_body) idle) "?probe=1"%string);
      [discriminate | reflexivity].
  - apply (proj2 (proj2 (healthzMiddleware_exact_target echo
                    (request_to "GET" "/healthz/" no_body) idle))). reflexivity.
Defined.

(** C3: with request logging disabled the logging middleware is the
    identity on handlers: for every next handler, request and state it
    behaves as the next handler on the same request, so nothing is logged
    before the next handler runs and the body it reads is the original
    stream; the chain [run] builds is then the health filter alone. *)
Theorem requestLoggingMiddleware_disabled
    (MarshalIndent : LoggableRequest -> list byte * option error)
    (next : Handler) (req : http.Request) (st : World) :
  requestLoggingMiddleware MarshalIndent false next req st = next req st
  /\ receiverHandler MarshalIndent false next req st = healthzMiddleware next req st.
Proof. split; reflexivity. Qed.

(** The request and the state the next handler is given when logging is on. *)
Lemma requestLoggingMiddleware_enabled MarshalIndent next req st :
  requestLoggingMiddleware MarshalIndent true next req st
  = next (logRequest MarshalIndent req st).1 (logRequest MarshalIndent req st).2.
Proof.
  unfold requestLoggingMiddleware.
  by destruct (logRequest MarshalIndent req st) as [req' st'].
Qed.

(** Reading the body touches no field of the request but the trailers. *)
Lemma after_ReadAll_fields req :
  http.Method (http.after_ReadAll req) = http.Method req
  /\ http.URL_ (http.after_ReadAll req) = http.URL_ req
  /\ http.Proto (http.after_ReadAll req) = http.Proto req
  /\ http.ProtoMajor (http.after_ReadAll req) = http.ProtoMajor req
  /\ http.ProtoMinor (http.after_ReadAll req) = http.ProtoMinor req
  /\ http.Header_ (http.after_ReadAll req) = http.Header_ req
  /\ http.Body (http.after_ReadAll req) = http.Body req
  /\ http.ContentLength (http.after_ReadAll req) = http.ContentLength req
  /\ http.TransferEncoding (http.after_ReadAll req) = http.TransferEncoding req
  /\ http.Host (http.after_ReadAll req) = http.Host req
  /\ http.RemoteAddr (http.after_ReadAll req) = http.RemoteAddr req
  /\ http.RequestURI (http.after_ReadAll req) = http.RequestURI req.
Proof. unfold http.after_ReadAll. by destruct (rc_end (http.Body req)). Qed.

Lemma after_ReadAll_RequestURI req :
  http.RequestURI (http.after_ReadAll req) = http.RequestURI req.
Proof. apply after_ReadAll_fields. Qed.

(** The trailers of the request once its body has been read. *)
Lemma after_ReadAll_Trailer req :
  http.Trailer (http.after_ReadAll req)
  = match rc_end (http.Body req) with
    | None => rc_trailer (http.Body req) ∪ http.Trailer req
    | Some _ => http.Trailer req
    end.
Proof. unfold http.after_ReadAll. by destruct (rc_end (http.Body req)). Qed.

(** A body that fails, or that no trailers follow, leaves the request as
    it is. *)
Lemma after_ReadAll_same req :
  rc_end (http.Body req) <> None \/ rc_trailer (http.Body req) = ∅ ->
  http.after_ReadAll req = req.
Proof.
  unfold http.after_ReadAll, http.mergeSetHeader.
  destruct (rc_end (http.Body req)) eqn:Hend; [done |].
  intros [H | H]; [done |]. rewrite H, (left_id_L ∅ (∪)). by destruct req.
Qed.

Lemma toReq_request req st :
  (toReq req st).1.2
  = http.set_Body (NopCloser_NewBuffer (rc_data (http.Body req))) (http.after_ReadAll req).
Proof. reflexivity. Qed.

Lemma logRequest_request MarshalIndent req st :
  (logRequest MarshalIndent req st).1
  = http.set_Body (NopCloser_NewBuffer (rc_data (http.Body req))) (http.after_ReadAll req).
Proof.
  unfold logRequest, toReq, ReadAll.
  by destruct (MarshalIndent _) as [b err].
Qed.

(** The entries [logRequest] adds, in order: the warning of a failed read,
    the warning of a failed encoding, the encoded snapshot. *)
Lemma logRequest_logged MarshalIndent req st :
  logged (logRequest MarshalIndent req st).2
  = logged st
    ++ match rc_end (http.Body req) with
       | Some _ => ["failed to read request body"%string]
       | None => []
       end
    ++ match (MarshalIndent (toReq req st).1.1).2 with
       | Some e => ["failed to marshal request " +:+ e]
       | None => []
       end
    ++ [string_of_list_byte (MarshalIndent (toReq req st).1.1).1].
Proof.
  unfold logRequest, toReq, ReadAll.
  destruct (MarshalIndent _) as [b err].
  destruct (rc_end (http.Body req)), err; simpl; by rewrite <- ?app_assoc.
Qed.

(** C4: with request logging enabled the next handler is invoked on the
    request whose body is a fresh stream over the bytes of the original
    body: reading it to the end yields exactly those bytes and no error, and
    the snapshot holds the same bytes; when the original stream ends at end
    of file and no trailers follow it, the request is the original one. *)
Theorem requestLoggingMiddleware_round_trip
    (MarshalIndent : LoggableRequest -> list byte * option error)
    (next : Handler) (req : http.Request) (st : World) :
  requestLoggingMiddleware MarshalIndent true next req st
  = next (http.set_Body (NopCloser_NewBuffer (rc_data (http.Body req)))
                        (http.after_ReadAll req))
         (logRequest MarshalIndent req st).2
  /\ (ReadAll (http.Body (logRequest MarshalIndent req st).1)).1
     = (rc_data (http.Body req), None)
  /\ string_of_list_byte (rc_data (http.Body (logRequest MarshalIndent req st).1))
     = Body (toReq req st).1.1
  /\ (rc_end (http.Body req) = None ->
      rc_trailer (http.Body req) = ∅ ->
      (logRequest MarshalIndent req st).1 = req).
Proof.
  rewrite requestLoggingMiddleware_enabled, logRequest_request.
  split; [done |]. split; [done |]. split; [done |].
  intros Hend Htrailer. rewrite after_ReadAll_same by by right.
  destruct req as [? ? ? ? ? ? [data e t] ? ? ? ? ? ?].
  simpl in *. by subst.
Qed.

Lemma requestLoggingMiddleware_round_trip_witness :
  (logRequest target_only delivery idle).1 = delivery.
Proof.
  apply (proj2 (proj2 (proj2
    (requestLoggingMiddleware_round_trip target_only echo delivery idle))));
    reflexivity.
Defined.

(** C5: with request logging enabled, whatever the outcome of reading the
    body and of encoding the snapshot, the next handler is invoked, once, on
    the request whose body holds the bytes that could be read: reading that
    body yields exactly those bytes and then end of file, whether the
    original read failed or not.  A failed read adds the entry [failed to
    read request body] and a failed encoding the entry [failed to marshal
    request] followed by the error, before the entry with the encoder's
    output; nothing is written to the response before the next handler
    runs. *)
Theorem requestLoggingMiddleware_failures_logged
    (MarshalIndent : LoggableRequest -> list byte * option error)
    (next : Handler) (req : http.Request) (st : World) :
  requestLoggingMiddleware MarshalIndent true next req st
  = next (logRequest MarshalIndent req st).1 (logRequest MarshalIndent req st).2
  /\ (logRequest MarshalIndent req st).1
     = http.set_Body (NopCloser_NewBuffer (rc_data (http.Body req)))
                     (http.after_ReadAll req)
  /\ rc_data (http.Body (logRequest MarshalIndent req st).1) = rc_data (http.Body req)
  /\ rc_end (http.Body (logRequest MarshalIndent req st).1) = None
  /\ (ReadAll (http.Body (logRequest MarshalIndent req st).1)).1
     = (rc_data (http.Body req), None)
  /\ logged (logRequest MarshalIndent req st).2
     = logged st
       ++ match rc_end (http.Body req) with
          | Some _ => ["failed to read request body"%string]
          | None => []
          end
       ++ match (MarshalIndent (toReq req st).1.1).2 with
          | Some e => ["failed to marshal request " +:+ e]
          | None => []
          end
       ++ [string_of_list_byte (MarshalIndent (toReq req st).1.1).1]
  /\ response (logRequest MarshalIndent req st).2 = response st.
Proof.
  split; [apply requestLoggingMiddleware_enabled |].
  rewrite logRequest_request.
  split; [done |]. split; [done |]. split; [done |]. split; [done |].
  split; [apply logRequest_logged |].
  unfold logRequest, toReq, ReadAll.
  destruct (MarshalIndent _) as [b err].
  by destruct (rc_end (http.Body req)), err.
Qed.

(** C5, evaluated: the read fails after one byte and the encoder fails; both
    warnings are logged and the base handler still answers with the byte. *)
Example broken_delivery_is_served :
  requestLoggingMiddleware failing_encoder true echo broken_delivery idle
  = {| logged := ["failed to read request body";
                  "failed to marshal request json: unsupported value"; ""]%string;
       response := [http.WriteHeaderCall 200;
                    http.WriteCall (list_byte_of_string "{")];
       closed := [mkReadCloser [] (Some "unexpected EOF"%string)] |}.
Proof. reflexivity. Qed.

(** C10 as stated fails: a chunked delivery arrives without trailers in the
    request, its body is followed by a trailer, and the read [toReq] makes
    reaches the end of the body; the request then carries the trailer, and
    so does the snapshot, so a field other than the body has changed. *)
Lemma toReq_fills_trailers :
  http.Trailer trailing_delivery = ∅
  /\ rc_end (http.Body trailing_delivery) = None
  /\ http.Trailer (toReq trailing_delivery idle).1.2 !! "X-Checksum"%string
     = Some ["9f2c"%string]
  /\ Trailer (toReq trailing_delivery idle).1.1 !! "X-Checksum"%string
     = Some ["9f2c"%string].
Proof.
  split; [reflexivity |]. split; [reflexivity |].
  split; cbn; unfold http.mergeSetHeader; rewrite lookup_union, lookup_singleton_eq;
    reflexivity.
Qed.

(** C10, amended: [toReq] assigns the body of the request only, which
    becomes an in-memory stream over exactly the bytes read, also when the
    read failed part-way; [Close] is called on the stream that was read;
    method, URL, protocol, headers, content length, transfer encoding, host,
    remote address and request target are as before; the trailers are as
    before when the read failed or no trailers followed the body, and
    otherwise hold, besides what they held, the trailers that followed the
    body, which net/http merges into the request when the read reaches the
    end; the body of the snapshot is the bytes read as a string and its
    trailers are those of the request after the read; nothing is written to
    the response. *)
Theorem toReq_frame (req : http.Request) (st : World) :
  (toReq req st).1.2
  = http.set_Body (NopCloser_NewBuffer (rc_data (http.Body req))) (http.after_ReadAll req)
  /\ http.Body (toReq req st).1.2 = mkReadCloser (rc_data (http.Body req)) None
  /\ (http.Method (toReq req st).1.2 = http.Method req
      /\ http.URL_ (toReq req st).1.2 = http.URL_ req
      /\ http.Proto (toReq req st).1.2 = http.Proto req
      /\ http.ProtoMajor (toReq req st).1.2 = http.ProtoMajor req
      /\ http.ProtoMinor (toReq req st).1.2 = http.ProtoMinor req
      /\ http.Header_ (toReq req st).1.2 = http.Header_ req
      /\ http.ContentLength (toReq req st).1.2 = http.ContentLength req
      /\ http.TransferEncoding (toReq req st).1.2 = http.TransferEncoding req
      /\ http.Host (toReq req st).1.2 = http.Host req
      /\ http.RemoteAddr (toReq req st).1.2 = http.RemoteAddr req
      /\ http.RequestURI (toReq req st).1.2 = http.RequestURI req)
  /\ http.Trailer (toReq req st).1.2
     = match rc_end (http.Body req) with
       | None => rc_trailer (http.Body req) ∪ http.Trailer req
       | Some _ => http.Trailer req
       end
  /\ (rc_end (http.Body req) <> None \/ rc_trailer (http.Body req) = ∅ ->
      http.Trailer (toReq req st).1.2 = http.Trailer req)
  /\ Trailer (toReq req st).1.1 = http.Trailer (toReq req st).1.2
  /\ list_byte_of_string (Body (toReq req st).1.1)
     = rc_data (http.Body (toReq req st).1.2)
  /\ closed (toReq req st).2
     = closed st ++ [mkReadCloser [] (rc_end (http.Body req))]
  /\ response (toReq req st).2 = response st.
Proof.
  rewrite toReq_request. split; [done |]. split; [done |].
  split; [unfold http.after_ReadAll; destruct (rc_end (http.Body req)); by repeat split |].
  split; [apply (after_ReadAll_Trailer req) |].
  split; [intros H; by rewrite (after_ReadAll_same req H) |].
  split; [reflexivity |].
  split; [apply list_byte_of_string_of_list_byte |].
  unfold toReq, ReadAll. by destruct (rc_end (http.Body req)).
Qed.

Lemma toReq_frame_witness :
  http.Trailer (toReq delivery idle).1.2 = http.Trailer delivery
  /\ http.Trailer (toReq broken_delivery idle).1.2 = http.Trailer broken_delivery.
Proof.
  split.
  - apply (proj1 (proj2 (proj2 (proj2 (proj2 (toReq_frame delivery idle)))))).
    right. reflexivity.
  - apply (proj1 (proj2 (proj2 (proj2 (proj2 (toReq_frame broken_delivery idle)))))).
    left. discriminate.
Defined.

(** C10, evaluated on a read that fails after one byte. *)
Example toReq_partial_read :
  http.Body (toReq broken_delivery idle).1.2 = mkReadCloser (list_byte_of_string "{") None
  /\ Body (toReq broken_delivery idle).1.1 = "{"%string.
Proof. split; reflexivity. Qed.

(** The middleware listed last is the outermost handler. *)
Lemma attachMiddleware_snoc (h : Handler) (middleware : list Middleware) (m : Middleware) :
  attachMiddleware h (middleware ++ [m]) = m (attachMiddleware h middleware).
Proof. unfold attachMiddleware. by rewrite fold_left_app. Qed.

Lemma attachMiddleware_nil (h : Handler) : attachMiddleware h [] = h.
Proof. reflexivity. Qed.

(** The chain [run] builds: the logging middleware, listed last, is the
    outermost handler and wraps the health filter. *)
Lemma receiverHandler_unfold MarshalIndent enabled base :
  receiverHandler MarshalIndent enabled base
  = requestLoggingMiddleware MarshalIndent enabled (healthzMiddleware base).
Proof. reflexivity. Qed.

(** C1 as stated fails: with request logging enabled, a probe ([GET
    /healthz], nothing logged before) reaches the request logger, which logs
    its snapshot before the health filter answers 204; this holds for every
    encoder and every base handler. *)
Lemma probe_reaches_request_logger :
  http.RequestURI probe = healthzPath
  /\ logged idle = []
  /\ logged (receiverHandler target_only true echo probe idle) = ["/healthz"%string]
  /\ (forall (MarshalIndent : LoggableRequest -> list byte * option error) (base : Handler),
        (1 <= length (logged (receiverHandler MarshalIndent true base probe idle)))%nat).
Proof.
  split; [reflexivity |]. split; [reflexivity |]. split; [reflexivity |].
  intros MarshalIndent base.
  rewrite receiverHandler_unfold, requestLoggingMiddleware_enabled.
  rewrite healthz_match by (by rewrite logRequest_request).
  cbn [WriteHeader logged]. rewrite logRequest_logged.
  rewrite !length_app. simpl. lia.
Qed.

(** For comparison: were the health filter the outermost handler, a probe
    would be answered with nothing logged, whatever the logging flag. *)
Lemma healthz_outermost_skips_logger MarshalIndent enabled base req st :
  http.RequestURI req = healthzPath ->
  healthzMiddleware (requestLoggingMiddleware MarshalIndent enabled base) req st
  = WriteHeader http.StatusNoContent st.
Proof. apply healthz_match. Qed.

(** C1, amended: the chain is the request logger around the health filter
    around the base handler.  A request whose target is [/healthz] never
    reaches the base handler: the filter writes 204, after the request
    logger has logged the request when logging is enabled and with nothing
    logged when it is disabled.  Any other request reaches the base handler,
    with its body replaced by the logger when logging is enabled and
    untouched when it is disabled. *)
Theorem receiverHandler_order
    (MarshalIndent : LoggableRequest -> list byte * option error)
    (base : Handler) (req : http.Request) (st : World) :
  (forall enabled : bool,
      receiverHandler MarshalIndent enabled base req st
      = requestLoggingMiddleware MarshalIndent enabled (healthzMiddleware base) req st)
  /\ (http.RequestURI req = healthzPath ->
      receiverHandler MarshalIndent false base req st
        = WriteHeader http.StatusNoContent st
      /\ receiverHandler MarshalIndent true base req st
        = WriteHeader http.StatusNoContent (logRequest MarshalIndent req st).2)
  /\ (http.RequestURI req <> healthzPath ->
      receiverHandler MarshalIndent false base req st = base req st
      /\ receiverHandler MarshalIndent true base req st
        = base (http.set_Body (NopCloser_NewBuffer (rc_data (http.Body req)))
                              (http.after_ReadAll req))
               (logRequest MarshalIndent req st).2).
Proof.
  assert (Htarget : http.RequestURI (logRequest MarshalIndent req st).1
                    = http.RequestURI req).
  { rewrite logRequest_request. apply after_ReadAll_RequestURI. }
  split; [done |]. split; intros H.
  - split.
    + rewrite receiverHandler_unfold. by apply healthz_match.
    + rewrite receiverHandler_unfold, requestLoggingMiddleware_enabled.
      apply healthz_match. by rewrite Htarget.
  - split.
    + rewrite receiverHandler_unfold. by apply healthz_pass.
    + rewrite receiverHandler_unfold, requestLoggingMiddleware_enabled.
      rewrite healthz_pass by (by rewrite Htarget).
      by rewrite logRequest_request.
Qed.

Lemma receiverHandler_order_witness :
  (receiverHandler target_only false echo probe idle = WriteHeader http.StatusNoContent idle
   /\ receiverHandler target_only true echo probe idle
      = WriteHeader http.StatusNoContent (logRequest target_only probe idle).2)
  /\ (receiverHandler target_only false echo delivery idle = echo delivery idle
      /\ receiverHandler target_only true echo delivery idle
         = echo (http.set_Body (NopCloser_NewBuffer (rc_data (http.Body delivery)))
                               (http.after_ReadAll delivery))
                (logRequest target_only delivery idle).2).
Proof.
  split.
  - apply (proj1 (proj2 (receiverHandler_order target_only echo probe idle))). reflexivity.
  - apply (proj2 (proj2 (receiverHandler_order target_only echo delivery idle))).
    vm_compute. discriminate.
Defined.

(** ** Start-up *)

(** C8: once the client exists, a tracing configuration that fails to parse
    does not stop [run]: the warning is logged, the tracer is set up with
    the configuration the parser returned with its error (the no-op default
    of the library) and the receiver is started; a tracer that cannot be
    built stops it: the cause is logged and the process exits with status 1,
    the receiver is not started. *)
Theorem run_tracing_failures {Config : Type} (c : Collaborators Config) (noop : Config) :
  NewClientHTTP c = None ->
  (forall (raw : string) (conf : Config) (e : error),
      JSONToTracingConfig c raw = (conf, Some e) -> conf = noop) ->
  (forall e : error,
      (JSONToTracingConfig c (Getenv c "K_CONFIG_TRACING")).2 = Some e ->
      SetupPublishingWithStaticConfig c noop = None ->
      exists rest : list (ProcEvent Config),
        run c = logging_notice c
                ++ [ClientCreated (ParseBool (Getenv c "REQUEST_LOGGING_ENABLED"));
                    Logged ("Failed to read tracing config, using the no-op default: " +:+ e);
                    TracingSetUp noop; ReceiverStarted] ++ rest)
  /\ (forall e : error,
      SetupPublishingWithStaticConfig c
        (JSONToTracingConfig c (Getenv c "K_CONFIG_TRACING")).1 = Some e ->
      exists before : list (ProcEvent Config),
        run c = before ++ [Logged ("Failed to initialize tracing: " +:+ e); Exit 1]
        /\ (ReceiverStarted ∉ before)
        /\ (forall conf, TracingSetUp conf ∉ before)).
Proof.
  intros Hclient Hnoop. unfold run, logging_notice. rewrite Hclient.
  destruct (JSONToTracingConfig c (Getenv c "K_CONFIG_TRACING")) as [conf err] eqn:Hconf.
  split.
  - intros e He Hsetup. simpl in He. subst err.
    rewrite (Hnoop _ _ _ Hconf) in *. rewrite Hsetup.
    eexists. reflexivity.
  - intros e Hsetup. simpl in Hsetup. rewrite Hsetup.
    exists ((if ParseBool (Getenv c "REQUEST_LOGGING_ENABLED")
             then [Logged "Request logging enabled, request logging is not recommended for production since it might log sensitive information"%string]
             else [])
            ++ ClientCreated (ParseBool (Getenv c "REQUEST_LOGGING_ENABLED"))
            :: match err with
               | Some e0 => [Logged ("Failed to read tracing config, using the no-op default: " +:+ e0)]
               | None => []
               end).
    split.
    + unfold log_Fatal. destruct (ParseBool _), err; reflexivity.
    + split; [| intros conf0];
        destruct (ParseBool _), err; simpl;
        rewrite ?elem_of_cons, ?elem_of_nil; intuition congruence.
Qed.

Lemma bad_tracing_json_returns_noop (raw conf : string) (e : error) :
  JSONToTracingConfig bad_tracing_json raw = (conf, Some e) -> conf = "noop"%string.
Proof. simpl. destruct (decide (raw = ""%string)); congruence. Qed.

Lemma tracer_fails_parses (raw conf : string) (e : error) :
  JSONToTracingConfig tracer_fails raw = (conf, Some e) -> conf = "noop"%string.
Proof. simpl. congruence. Qed.

Lemma run_tracing_failures_witness :
  (exists rest : list (ProcEvent string),
      run bad_tracing_json
      = logging_notice bad_tracing_json
        ++ [ClientCreated (ParseBool (Getenv bad_tracing_json "REQUEST_LOGGING_ENABLED"));
            Logged ("Failed to read tracing config, using the no-op default: "
                    +:+ "invalid character 'n' looking for beginning of object key string")%string;
            TracingSetUp "noop"%string; ReceiverStarted] ++ rest)
  /\ (exists before : list (ProcEvent string),
      run tracer_fails = before ++ [Logged ("Failed to initialize tracing: " +:+ "no exporter"); Exit 1]
      /\ (ReceiverStarted ∉ before)
      /\ (forall conf, TracingSetUp conf ∉ before)).
Proof.
  split.
  - apply (proj1 (run_tracing_failures bad_tracing_json "noop"%string eq_refl
                    bad_tracing_json_returns_noop)); reflexivity.
  - apply (proj2 (run_tracing_failures tracer_fails "noop"%string eq_refl
                    tracer_fails_parses)). reflexivity.
Defined.

(** C8, evaluated: the two start-ups in full. *)
Example run_bad_tracing_json :
  run bad_tracing_json
  = [ClientCreated false;
     Logged "Failed to read tracing config, using the no-op default: invalid character 'n' looking for beginning of object key string";
     TracingSetUp "noop"%string; ReceiverStarted; TracerShutdown].
Proof. reflexivity. Qed.

Example run_tracer_fails :
  run tracer_fails
  = [ClientCreated false; Logged "Failed to initialize tracing: no exporter"; Exit 1].
Proof. reflexivity. Qed.

(** ** The rendered snapshot *)

(** C7 as stated fails: in the snapshot whose fields are all empty or zero
    the remote address and the request target are still rendered, as empty
    strings; they are the only keys of the output. *)
Lemma empty_snapshot_keeps_two_keys :
  Snapshot.isEmptyValue (Snapshot.GoString (RemoteAddr empty_snapshot)) = true
  /\ Snapshot.isEmptyValue (Snapshot.GoString (RequestURI empty_snapshot)) = true
  /\ Snapshot.rendered empty_snapshot
     = [Snapshot.mkField "remoteAddr" false (Snapshot.GoString "");
        Snapshot.mkField "requestURI" false (Snapshot.GoString "")].
Proof. split; [| split]; reflexivity. Qed.

(** The keys of the struct are pairwise distinct, so a key is in the output
    exactly when its field is not skipped. *)
Lemma fields_names (r : LoggableRequest) :
  Snapshot.name <$> Snapshot.fields r
  = ["method"; "URL"; "proto"; "protoMajor"; "protoMinor"; "headers"; "body";
     "contentLength"; "transferEncoding"; "host"; "trailer"; "remoteAddr";
     "requestURI"]%string.
Proof. reflexivity. Qed.

Lemma fields_names_NoDup (r : LoggableRequest) : NoDup (Snapshot.name <$> Snapshot.fields r).
Proof. rewrite fields_names. apply (bool_decide_unpack _). by vm_compute. Qed.

Lemma key_rendered_iff (r : LoggableRequest) (f : Snapshot.Field) :
  f ∈ Snapshot.fields r ->
  Snapshot.name f ∈ Snapshot.keys r <-> Snapshot.skipped f = false.
Proof.
  intros Hf. unfold Snapshot.keys, Snapshot.rendered. split.
  - intros Hin. apply list_elem_of_fmap in Hin as (g & Hname & Hg).
    apply list_elem_of_In, filter_In in Hg as [Hg Hkeep].
    apply list_elem_of_In in Hg.
    assert (g = f) as ->.
    { pose proof (fields_names_NoDup r) as Hnd.
      apply list_elem_of_lookup in Hg as [i Hi].
      apply list_elem_of_lookup in Hf as [j Hj].
      assert (i = j) as ->.
      { eapply NoDup_lookup; [exact Hnd | |];
          rewrite list_lookup_fmap; [rewrite Hi | rewrite Hj]; simpl; [done |].
        by rewrite Hname. }
      congruence. }
    by destruct (Snapshot.skipped f).
  - intros Hkeep. apply list_elem_of_fmap. exists f. split; [done |].
    apply list_elem_of_In, filter_In. split; [by apply list_elem_of_In |].
    by rewrite Hkeep.
Qed.

(** C7, amended: a field of the snapshot other than the remote address and
    the request target is left out of the output exactly when its value is
    empty or zero; the remote address and the request target are always in
    the output, empty or not. *)
Theorem snapshot_omits_empty_fields (r : LoggableRequest) :
  (forall f : Snapshot.Field,
      f ∈ Snapshot.fields r ->
      Snapshot.name f <> "remoteAddr"%string ->
      Snapshot.name f <> "requestURI"%string ->
      (Snapshot.isEmptyValue (Snapshot.value f) = true <-> Snapshot.name f ∉ Snapshot.keys r))
  /\ "remoteAddr"%string ∈ Snapshot.keys r
  /\ "requestURI"%string ∈ Snapshot.keys r.
Proof.
  split; [| split].
  - intros f Hf Hra Hru. rewrite (key_rendered_iff r f Hf).
    assert (Snapshot.omitEmpty f = true) as Homit.
    { unfold Snapshot.fields in Hf.
      repeat (apply elem_of_cons in Hf as [-> | Hf]); try done.
      by apply elem_of_nil in Hf. }
    unfold Snapshot.skipped. rewrite Homit. simpl.
    destruct (Snapshot.isEmptyValue (Snapshot.value f)); split; congruence.
  - apply (key_rendered_iff r (Snapshot.mkField "remoteAddr" false
                                 (Snapshot.GoString (RemoteAddr r)))); [| done].
    unfold Snapshot.fields. rewrite !elem_of_cons. tauto.
  - apply (key_rendered_iff r (Snapshot.mkField "requestURI" false
                                 (Snapshot.GoString (RequestURI r)))); [| done].
    unfold Snapshot.fields. rewrite !elem_of_cons. tauto.
Qed.

Lemma snapshot_omits_empty_fields_witness :
  Snapshot.isEmptyValue (Snapshot.GoString (Method empty_snapshot)) = true
  <-> "method"%string ∉ Snapshot.keys empty_snapshot.
Proof.
  apply (proj1 (snapshot_omits_empty_fields empty_snapshot)
               (Snapshot.mkField "method" true (Snapshot.GoString (Method empty_snapshot)))).
  - vm_compute. left.
  - simpl. discriminate.
  - simpl. discriminate.
Defined.

(** ** The encoder writes JSON *)

Section Encoding.
Import Grammar cloudevents.

Lemma same_refl c : same c c = true.
Proof. unfold same. by apply bool_decide_eq_true. Qed.

Lemma same_code c d : code c <> code d -> same c d = false.
Proof. intros H. unfold same. apply bool_decide_eq_false. congruence. Qed.

Lemma code_lt (c : ascii) : (code c < 256)%N.
Proof. apply N_ascii_bounded. Qed.

Lemma code_inj c n : code c = n -> c = ascii_of_N n.
Proof. intros <-. unfold code. by rewrite ascii_N_embedding. Qed.

Lemma scan_string_plain c s : plain c -> scan_string (c :: s) = scan_string s.
Proof.
intros (H1 & H2 & H3). cbn [scan_string].
rewrite (same_code c quote), (same_code c backslash) by done.
destruct (code c <? 32)%N eqn:E; [apply N.ltb_lt in E; lia | done].
Qed.
Lemma scan_string_plains l s : Forall plain l -> scan_string (l ++ s) = scan_string s.
Proof. induction 1; [done |]. simpl app. by rewrite scan_string_plain. Qed.

Lemma scan_string_escaped e s :
is_escape e = true -> scan_string (backslash :: e :: s) = scan_string s.
Proof. intros H. cbn [scan_string]. change (same backslash quote) with false.
change (same backslash backslash) with true. cbv iota. by rewrite H. Qed.

Lemma scan_string_unicode h1 h2 h3 h4 s :
is_hex h1 = true -> is_hex h2 = true -> is_hex h3 = true -> is_hex h4 = true ->
scan_string (backslash :: "u"%char :: h1 :: h2 :: h3 :: h4 :: s) = scan_string s.
Proof. intros H1 H2 H3 H4. cbn [scan_string]. change (same backslash quote) with false.
change (same backslash backslash) with true. 
change (is_escape "u") with false. change (same "u" "u") with true. cbv iota.
by rewrite H1, H2, H3, H4. Qed.

Lemma is_hex_hexdigit n : (n < 16)%N -> is_hex (hexdigit n) = true.
Proof.
intros H. unfold hexdigit.
assert (N.to_nat n < 16)%nat as Hn by lia. clear H.
generalize dependent (N.to_nat n). intros k Hk.
do 16 (destruct k as [|k]; [reflexivity |]). lia.
Qed.

Lemma scan_string_escape c s : scan_string (json.escape c ++ s) = scan_string s.
Proof.
unfold json.escape.
destruct (N.eqb_spec (code c) 0x5C) as [E|E1].
{ rewrite (code_inj _ _ E). reflexivity. }
destruct (N.eqb_spec (code c) 0x22) as [E|E2].
{ rewrite (code_inj _ _ E). reflexivity. }
cbn [orb].
repeat match goal with
| |- context [N.eqb (code c) ?k] => destruct (N.eqb (code c) k); [reflexivity |]
end.
simpl app. apply scan_string_unicode; try reflexivity.
- apply is_hex_hexdigit. pose proof (code_lt c). 
  rewrite N.shiftr_div_pow2. change (2^4)%N with 16%N.
  apply N.Div0.div_lt_upper_bound. lia.
- apply is_hex_hexdigit. change 15%N with (N.ones 4). rewrite N.land_ones.
  apply N.mod_lt. done.
Qed.
Lemma high_plain c : high c -> plain c.
Proof. unfold high, plain. lia. Qed.

Lemma first_high b :
(0x80 <= b)%N ->
utf8.first b ∈ [0xF1; 0x02; 0x13; 0x03; 0x23; 0x34; 0x04; 0x44]%N.
Proof.
intros H. unfold utf8.first.
repeat match goal with
| |- context [if ?c then _ else _] => destruct c eqn:?
end; try (rewrite !elem_of_cons; tauto).
apply N.ltb_lt in Heqb0. lia.
Qed.

Ltac eval_closed :=
repeat match goal with
| |- context [utf8.acceptRanges ?a] =>
    let v := eval vm_compute in (utf8.acceptRanges a) in
    change (utf8.acceptRanges a) with v
| |- context [N.to_nat (N.land ?a 7)] =>
    let v := eval vm_compute in (N.to_nat (N.land a 7)) in
    change (N.to_nat (N.land a 7)) with v
| |- context [N.odd ?a] =>
    let v := eval vm_compute in (N.odd a) in change (N.odd a) with v
| |- context [(240 <=? ?a)%N] =>
    let v := eval vm_compute in (240 <=? a)%N in change (240 <=? a)%N with v
end.

Lemma DecodeRuneInString_width (c : ascii) (rest : text) :
high c ->
(1 <= (utf8.DecodeRuneInString (take utf8.UTFMax (c :: rest))).2 <= length (c :: rest))%nat
/\ Forall high (take (utf8.DecodeRuneInString (take utf8.UTFMax (c :: rest))).2 (c :: rest)).
Proof.
intros Hc. pose proof (first_high _ Hc) as Hf.
unfold utf8.DecodeRuneInString, utf8.UTFMax, utf8.at_, utf8.locb, utf8.hicb.
destruct rest as [|c1 [|c2 [|c3 t]]]; cbn [take length nth Nat.ltb Nat.leb];
change (code zero) with 0%N;
repeat (apply elem_of_cons in Hf as [-> | Hf]); try (by apply elem_of_nil in Hf);
eval_closed; cbv beta iota zeta; cbn [Nat.ltb Nat.leb];
repeat match goal with
| |- context [if ?b then _ else _] => destruct b eqn:?
end; cbn [snd take length]; (split; [lia |]);
repeat match goal with
| H : (_ || _)%bool = false |- _ => apply orb_false_elim in H as [? ?]
| H : (_ <? _)%N = false |- _ => apply N.ltb_ge in H
end;
repeat constructor; unfold high; try done; try lia.
Qed.

Lemma htmlSafeSet_plain c : json.htmlSafeSet (code c) = true -> plain c.
Proof.
unfold json.htmlSafeSet, plain. intros H.
apply andb_prop in H as [H Hn]. apply andb_prop in H as [H1 H2].
apply N.leb_le in H1. apply negb_true_iff in Hn.
repeat (apply orb_false_elim in Hn as [Hn ?]).
repeat match goal with H : (_ =? _)%N = false |- _ => apply N.eqb_neq in H end.
lia.
Qed.

Lemma scan_string_quote rest : scan_string (quote :: rest) = Some rest.
Proof. reflexivity. Qed.

(** Whatever the fuel, the loop writes the inside of a string literal. *)
Lemma appendString_from_scans fuel : forall src rest,
scan_string (json.appendString_from fuel src ++ quote :: rest) = Some rest.
Proof.
induction fuel as [|fuel IH]; intros src rest.
{ apply scan_string_quote. }
destruct src as [|c src0]; [apply scan_string_quote |].
cbn [json.appendString_from].
destruct (code c <? utf8.RuneSelf)%N eqn:Hascii.
- rewrite <- app_assoc.
  destruct (json.htmlSafeSet (code c)) eqn:Hsafe.
  + simpl app. rewrite scan_string_plain by by apply htmlSafeSet_plain. apply IH.
  + rewrite scan_string_escape. apply IH.
- apply N.ltb_ge in Hascii.
  destruct (DecodeRuneInString_width c src0 Hascii) as [Hsize Hhigh].
  destruct (utf8.DecodeRuneInString (take utf8.UTFMax (c :: src0))) as [r size].
  cbn [snd] in *.
  destruct ((r =? utf8.RuneError)%N && (size =? 1)%nat).
  { rewrite <- app_assoc. simpl app at 1.
    rewrite scan_string_unicode by reflexivity. apply IH. }
  destruct ((r =? 0x2028) || (r =? 0x2029))%N.
  { rewrite <- app_assoc. simpl app at 1.
    rewrite scan_string_unicode; try reflexivity; [apply IH |].
    apply is_hex_hexdigit. change 15%N with (N.ones 4). rewrite N.land_ones.
    by apply N.mod_lt. }
  rewrite <- app_assoc, scan_string_plains; [apply IH |].
  eapply Forall_impl; [exact Hhigh | apply high_plain].
Qed.

(** The loop ends within [length src] iterations: more fuel changes nothing. *)
Lemma appendString_from_fuel f1 : forall f2 src,
(length src <= f1)%nat -> (length src <= f2)%nat ->
json.appendString_from f1 src = json.appendString_from f2 src.
Proof.
induction f1 as [|f1 IH]; intros f2 src H1 H2.
{ destruct src; [| simpl in H1; lia]. by destruct f2. }
destruct src as [|c src0]; [by destruct f2 |].
destruct f2 as [|f2]; [simpl in H2; lia |].
cbn [json.appendString_from]. simpl in H1, H2.
destruct (code c <? utf8.RuneSelf)%N eqn:Hascii.
- f_equal. apply IH; lia.
- apply N.ltb_ge in Hascii.
  destruct (DecodeRuneInString_width c src0 Hascii) as [Hsize _].
  destruct (utf8.DecodeRuneInString (take utf8.UTFMax (c :: src0))) as [r size].
  cbn [snd] in Hsize.
  assert (length (drop size (c :: src0)) <= length src0)%nat as Hlen.
  { rewrite length_drop. simpl. lia. }
  repeat case_match; f_equal; apply IH; lia.
Qed.

Lemma appendString_scans (s : string) (rest : text) :
scan_string (tail (json.appendString s) ++ rest) = Some rest
/\ head (json.appendString s) = Some quote.
Proof.
unfold json.appendString. simpl. split; [| done].
rewrite <- app_assoc. apply appendString_from_scans.
Qed.

(** *** Numbers *)

Lemma digit_code k : (k < 10)%N -> code (json.digit k) = (48 + k)%N.
Proof. intros H. unfold code, json.digit. apply N_ascii_embedding. lia. Qed.

Lemma is_digit_digit k : (k < 10)%N -> is_digit (json.digit k) = true.
Proof.
intros H. unfold is_digit. rewrite (digit_code k H).
apply andb_true_intro. split; apply N.leb_le; lia.
Qed.

Lemma digits_from_shape fuel : forall n acc,
(0 < n)%N -> (n < 2 ^ N.of_nat fuel)%N ->
exists d ds, json.digits_from fuel n acc = d :: ds ++ acc
             /\ is_digit d = true /\ code d <> 48%N
             /\ Forall (fun c => is_digit c = true) ds.
Proof.
induction fuel as [|fuel IH]; intros n acc Hpos Hlt.
{ simpl in Hlt. lia. }
cbn [json.digits_from].
destruct (N.ltb_spec n 10) as [Hsmall | Hbig].
- exists (json.digit (n mod 10)), []. rewrite N.mod_small by done.
  split; [done |]. split; [by apply is_digit_digit |].
  split; [rewrite digit_code by done; lia | constructor].
- destruct (IH (n / 10)%N (json.digit (n mod 10) :: acc)) as (d & ds & Heq & Hd & Hnz & Hds).
  + apply N.div_str_pos. lia.
  + apply N.Div0.div_lt_upper_bound.
    rewrite Nat2N.inj_succ, N.pow_succ_r' in Hlt. lia.
  + exists d, (ds ++ [json.digit (n mod 10)]). rewrite Heq, <- app_assoc.
    split; [done |]. split; [done |]. split; [done |].
    apply Forall_app. split; [done |]. constructor; [| constructor].
    apply is_digit_digit. apply N.mod_lt. lia.
Qed.

Lemma digits_shape n :
(0 < n)%N ->
exists d ds, json.digits n = d :: ds
             /\ is_digit d = true /\ code d <> 48%N
             /\ Forall (fun c => is_digit c = true) ds.
Proof.
intros Hpos. unfold json.digits.
destruct (digits_from_shape (S (N.to_nat (N.log2 n))) n [] Hpos) as (d & ds & Heq & H).
- rewrite Nat2N.inj_succ, N2Nat.id. by apply N.log2_spec.
- exists d, ds. by rewrite Heq, app_nil_r.
Qed.

Lemma skip_digits_app ds rest :
Forall (fun c => is_digit c = true) ds -> delimited rest ->
skip_digits (ds ++ rest) = rest.
Proof.
induction 1 as [|c ds Hc _ IH]; intros Hrest; cbn [app skip_digits].
- destruct rest as [|c rest]; [done |]. cbn [delimited skip_digits] in *. by rewrite Hrest.
- rewrite Hc. by apply IH.
Qed.

Lemma scan_number_digits n rest :
delimited rest -> scan_number (json.digits n ++ rest) = Some rest.
Proof.
intros Hrest. destruct (N.eq_dec n 0%N) as [-> | Hn].
- reflexivity.
- destruct (digits_shape n) as (d & ds & -> & Hd & Hnz & Hds); [lia |].
  unfold scan_number. simpl app. cbv iota.
  assert (same d "-"%char = false) as ->.
  { apply same_code. unfold is_digit in Hd.
    apply andb_prop in Hd as [Hd _]. apply N.leb_le in Hd.
    change (code "-"%char) with 45%N. lia. }
  rewrite (same_code d "0"%char) by done. rewrite Hd.
  by rewrite skip_digits_app.
Qed.

Lemma scan_number_AppendInt i rest :
delimited rest -> scan_number (json.AppendInt i ++ rest) = Some rest.
Proof.
intros Hrest. unfold json.AppendInt. destruct (Z.ltb_spec i 0) as [Hneg | Hpos].
- destruct (digits_shape (Z.to_N (- i))) as (d & ds & Heq & Hd & Hnz & Hds); [lia |].
  pose proof (scan_number_digits (Z.to_N (- i)) rest Hrest) as Hscan.
  rewrite Heq in *. unfold scan_number in *. simpl app in *. cbv iota in *.
  change (same "-"%char "-"%char) with true. cbv iota.
  assert (same d "-"%char = false) as Hminus.
  { apply same_code. unfold is_digit in Hd.
    apply andb_prop in Hd as [Hd _]. apply N.leb_le in Hd.
    change (code "-"%char) with 45%N. lia. }
  by rewrite Hminus in Hscan.
- by apply scan_number_digits.
Qed.

Lemma numeral_value_snoc (a : text) (k : N) :
  (k < 10)%N -> numeral_value (a ++ [json.digit k]) = (10 * numeral_value a + k)%N.
Proof.
  intros Hk. unfold numeral_value. rewrite fold_left_app. simpl.
  unfold code, json.digit. rewrite N_ascii_embedding by lia. lia.
Qed.

(** The digits written denote the number, whatever is in the buffer. *)
Lemma digits_from_value fuel : forall n acc,
  (n < 2 ^ N.of_nat fuel)%N -> (0 < n)%N ->
  exists ds, json.digits_from fuel n acc = ds ++ acc /\ numeral_value ds = n.
Proof.
  induction fuel as [|fuel IH]; intros n acc Hlt Hpos.
  { simpl in Hlt. lia. }
  cbn [json.digits_from].
  destruct (N.ltb_spec n 10) as [Hsmall | Hbig].
  - exists [json.digit (n mod 10)]. split; [done |].
    rewrite N.mod_small by done.
    pose proof (numeral_value_snoc [] n Hsmall) as Hv. simpl app in Hv.
    rewrite Hv. cbn. lia.
  - destruct (IH (n / 10)%N (json.digit (n mod 10) :: acc)) as (ds & Heq & Hval).
    + apply N.Div0.div_lt_upper_bound.
      rewrite Nat2N.inj_succ, N.pow_succ_r' in Hlt. lia.
    + apply N.div_str_pos. lia.
    + exists (ds ++ [json.digit (n mod 10)]). rewrite Heq, <- app_assoc.
      split; [done |].
      rewrite numeral_value_snoc by (apply N.mod_lt; lia).
      rewrite Hval. pose proof (N.div_mod n 10). lia.
Qed.

Lemma digits_value (n : N) : numeral_value (json.digits n) = n.
Proof.
  destruct (N.eq_dec n 0%N) as [-> | Hn]; [reflexivity |].
  unfold json.digits.
  destruct (digits_from_value (S (N.to_nat (N.log2 n))) n []) as (ds & Heq & Hval).
  - rewrite Nat2N.inj_succ, N2Nat.id. apply N.log2_spec. lia.
  - lia.
  - by rewrite Heq, app_nil_r.
Qed.

Lemma AppendInt_head i :
exists c t, json.AppendInt i = c :: t /\ (c = "-"%char \/ is_digit c = true).
Proof.
unfold json.AppendInt. destruct (i <? 0) eqn:Hi; [eauto |].
destruct (N.eq_dec (Z.to_N i) 0%N) as [Hz | Hn].
- rewrite Hz. exists "0"%char, []. split; [reflexivity | by right].
- destruct (digits_shape (Z.to_N i)) as (d & ds & -> & Hd & _); [lia |]. eauto.
Qed.

Lemma scan_value_number fuel c s :
c = "-"%char \/ is_digit c = true ->
scan_value (S fuel) (c :: s) = scan_number (c :: s).
Proof.
intros [-> | Hd]; [reflexivity |].
unfold is_digit in Hd. apply andb_prop in Hd as [H1 H2].
apply N.leb_le in H1, H2. cbn [scan_value].
rewrite !same_code; [done | | | | | |];
  match goal with |- code c <> code ?k => let v := eval vm_compute in (code k) in change (code k) with v end; lia.
Qed.

(** *** Values, members, objects *)

Lemma encodeValue_scans v t fuel rest :
Marshal.encodeValue v = inl t -> delimited rest ->
scan_value (S fuel) (t ++ rest) = Some rest.
Proof.
intros Hv Hrest. destruct v as [s | i | [|] | e]; simpl in Hv; try discriminate;
  injection Hv as <-.
- unfold json.appendString. simpl app. cbn [scan_value].
  change (same quote quote) with true. cbv iota.
  rewrite <- app_assoc. apply appendString_from_scans.
- destruct (AppendInt_head i) as (c & t & Heq & Hc).
  pose proof (scan_number_AppendInt i rest Hrest) as Hscan.
  rewrite Heq in *. simpl app in *. by rewrite scan_value_number.
- reflexivity.
- reflexivity.
Qed.

Lemma encodeMembers_length sv : forall i t,
Marshal.encodeMembers i sv = inl t -> (length sv <= length t)%nat.
Proof.
induction sv as [|[k v] sv IH]; intros i t H; simpl in *; [lia |].
destruct (Marshal.encodeValue v) as [tv | e]; [| discriminate].
destruct (Marshal.encodeMembers (S i) sv) as [tr | e] eqn:Hr; [| discriminate].
injection H as <-. specialize (IH _ _ Hr).
destruct (0 <? i)%nat; simpl; rewrite !length_app; simpl; rewrite length_app; lia.
Qed.

Lemma encodeMembers_scans sv : forall i t fuel rest,
Marshal.encodeMembers i sv = inl t -> sv <> [] -> (length sv < fuel)%nat ->
exists t', t = (if (0 <? i)%nat then [","%char] else []) ++ quote :: t'
           /\ scan_members fuel (quote :: t' ++ "}"%char :: rest) = Some rest.
Proof.
induction sv as [|[k v] sv IH]; intros i t fuel rest H Hne Hfuel; [done |].
simpl in H.
destruct (Marshal.encodeValue v) as [tv | e] eqn:Hv; [| discriminate].
destruct (Marshal.encodeMembers (S i) sv) as [tr | e] eqn:Hr; [| discriminate].
injection H as <-.
exists (json.appendString_from (length (list_ascii_of_string k)) (list_ascii_of_string k)
        ++ quote :: ":"%char :: tv ++ tr).
split.
{ unfold json.appendString. simpl. by rewrite <- app_assoc. }
destruct fuel as [|fuel]; [lia |]. simpl in Hfuel.
cbn [scan_members]. change (same quote quote) with true. cbv iota.
rewrite <- app_assoc, <- !app_comm_cons, appendString_from_scans.
change (same ":"%char ":"%char) with true. cbv iota.
destruct fuel as [|fuel]; [lia |].
destruct sv as [|kv sv].
- simpl in Hr. injection Hr as <-.
  rewrite app_nil_r. rewrite (encodeValue_scans v tv fuel _ Hv) by done.
  reflexivity.
- destruct (IH (S i) tr (S fuel) rest Hr) as (t' & -> & Hscan); [done | simpl in *; lia |].
  rewrite <- app_assoc. rewrite (encodeValue_scans v tv fuel _ Hv) by done.
  exact Hscan.
Qed.

(** Whenever [Marshal] reports no error, its output is a JSON text. *)
Lemma Marshal_valid m t :
Marshal.Marshal m = (t, None) -> Grammar.valid t = true.
Proof.
destruct m as [m|]; simpl; [| by intros [= <-]].
destruct (Marshal.encodeMembers 0 (Marshal.sortedEntries m)) as [t0 | e] eqn:Hm;
  [| discriminate].
intros [= <-].
destruct (Marshal.sortedEntries m) as [|kv sv] eqn:Hsv.
{ simpl in Hm. by injection Hm as <-. }
pose proof (encodeMembers_length _ _ _ Hm) as Hlen.
destruct (encodeMembers_scans _ 0%nat t0 (length ("{"%char :: t0 ++ ["}"%char])) [] Hm)
  as (t' & -> & Hscan); [done | |].
{ simpl. rewrite length_app. simpl in *. lia. }
unfold Grammar.valid.
simpl app in *. cbn [scan_value].
change (same "{"%char quote) with false. change (same "{"%char "{"%char) with true.
change (same quote "}"%char) with false. cbv iota.
by rewrite Hscan.
Qed.

(** The recogniser on a few texts. *)
Example recogniser_accepts :
  Forall (fun s => Grammar.valid (list_ascii_of_string s) = true)
         ["{}"; "[]"; "null"; "true"; "false"; "0"; "-12"; "[1,[2,{}],null]"]%string.
Proof. repeat constructor. Qed.

Example recogniser_rejects :
  Forall (fun s => Grammar.valid (list_ascii_of_string s) = false)
         [""; "{"; "{}}"; "[1,]"; "01"; "nul"; "{1:2}"; "1 2"; "-"; "tru"]%string.
Proof. repeat constructor. Qed.

End Encoding.

(** ** [display] *)

Lemma Marshal_empty_map : Marshal.Marshal (Some ∅) = (list_ascii_of_string "{}", None).
Proof.
  unfold Marshal.Marshal, Marshal.sortedEntries. by rewrite map_to_list_empty.
Qed.

Lemma Marshal_error m t e : Marshal.Marshal m = (t, Some e) -> t = [].
Proof.
  destruct m as [m|]; simpl; [| discriminate].
  destruct (Marshal.encodeMembers 0 (Marshal.sortedEntries m)); congruence.
Qed.




(** C6, evaluated: one extension, and an extension that cannot be encoded. *)
Example display_priority_event :
  logged (display priority_event idle)
  = [display_format "{}" "sample.created"
       (String "{" (String quote "priority" +:+ String quote ":1}"))].
Proof. vm_compute. reflexivity. Qed.

Example display_unencodable_event :
  logged (display unencodable_event idle) = [display_format "{}" "sample.created" ""].
Proof. vm_compute. reflexivity. Qed.

(** The members of an encoded object are the entries of the map, by key. *)
Lemma sortedEntries_sorted (m : gmap string cloudevents.ExtValue) :
  Sorted (fun a b => Is_true (String.leb a.1 b.1)) (Marshal.sortedEntries m)
  /\ Marshal.sortedEntries m ≡ₚ map_to_list m.
Proof.
  split; [apply Sorted_merge_sort | apply merge_sort_Permutation].
  intros a b. destruct (String.leb_total a.1 b.1) as [H | H]; [left | right];
    by apply Is_true_true.
Qed.

(** * Further properties *)

(** ** The environment *)

(** X1: [getEnv] returns the value of a variable that is set, also when
    that value is the empty string, and the fallback only for a variable
    that is not set; with the empty fallback it is [os.Getenv]; setting
    another variable does not change its result. *)
Theorem getEnv_set_unset (environ : gmap string string) (key other value fallback : string) :
  getEnv (<[key := value]> environ) key fallback = value
  /\ getEnv (delete key environ) key fallback = fallback
  /\ getEnv environ key ""%string = os_Getenv environ key
  /\ (other <> key ->
      getEnv (<[other := value]> environ) key fallback = getEnv environ key fallback).
Proof.
  unfold getEnv, os_Getenv, LookupEnv. split; [| split; [| split]].
  - by rewrite lookup_insert_eq.
  - by rewrite lookup_delete_eq.
  - by destruct (environ !! key).
  - intros Hne. by rewrite lookup_insert_ne.
Qed.

Lemma getEnv_set_unset_witness :
  getEnv (<[ "REQUEST_LOGGING_ENABLED"%string := "true"%string ]> {[ "LOG_FILE_PATH"%string := ""%string ]})
         "LOG_FILE_PATH" "/var/log/app.log"
  = getEnv {[ "LOG_FILE_PATH"%string := ""%string ]} "LOG_FILE_PATH" "/var/log/app.log".
Proof.
  apply (proj2 (proj2 (proj2 (getEnv_set_unset {[ "LOG_FILE_PATH"%string := ""%string ]}
           "LOG_FILE_PATH" "REQUEST_LOGGING_ENABLED" "true" "/var/log/app.log")))).
  discriminate.
Defined.

(** ** [run] *)

Ltac run_cases c :=
  unfold run, logging_notice, log_Fatal, succeeds;
  destruct (ParseBool (Getenv c "REQUEST_LOGGING_ENABLED"));
  destruct (NewClientHTTP c) as [eclient|];
  destruct (JSONToTracingConfig c (Getenv c "K_CONFIG_TRACING")) as [conf [eparse|]];
  cbn [fst snd];
  destruct (SetupPublishingWithStaticConfig c conf) as [etracer|];
  destruct (StartReceiver c) as [ereceiver|];
  cbn [app].

Lemma exited_run {Config} (c : Collaborators Config) :
  exited (run c) = false <-> succeeds c.
Proof. run_cases c; cbn; intuition congruence. Qed.

Lemma run_last {Config} (c : Collaborators Config) :
  last (run c) = Some (if exited (run c) then Exit 1 else TracerShutdown).
Proof. run_cases c; reflexivity. Qed.

Ltac elems :=
  rewrite ?elem_of_cons, ?elem_of_nil.

(** X3: [run] shuts the tracer down exactly when creating the client,
    setting up the tracer and receiving all succeed; otherwise it exits, the
    exit status is 1, the exit is the last event and the deferred shutdown
    does not run. *)
Theorem run_shutdown_iff_success {Config : Type} (c : Collaborators Config) :
  (TracerShutdown ∈ run c <-> succeeds c)
  /\ (Exit 1 ∈ run c <-> ~ succeeds c)
  /\ (forall code : Z, Exit code ∈ run c -> code = 1 /\ last (run c) = Some (Exit 1))
  /\ (succeeds c -> last (run c) = Some TracerShutdown).
Proof.
  split; [| split; [| split]].
  - run_cases c; elems; intuition congruence.
  - run_cases c; elems; intuition congruence.
  - intros code. run_cases c; elems; cbn; intuition congruence.
  - intros H. rewrite run_last. apply exited_run in H. by rewrite H.
Qed.

Lemma run_shutdown_iff_success_witness :
  last (run (collaborators healthy_process)) = Some TracerShutdown.
Proof.
  apply (proj2 (proj2 (proj2 (run_shutdown_iff_success (collaborators healthy_process))))).
  repeat split.
Defined.


(** X4: [run] starts the receiver exactly when the client was created and
    the tracer was set up; the tracer is set up with the configuration the
    parser returned and only on the way to starting the receiver; a client
    that cannot be created ends [run] at once, with the cause logged and
    exit status 1, whatever the tracing collaborators would do. *)
Theorem run_receiver_started_iff {Config : Type} (c : Collaborators Config) :
  (ReceiverStarted ∈ run c <->
     NewClientHTTP c = None
     /\ SetupPublishingWithStaticConfig c
          (JSONToTracingConfig c (Getenv c "K_CONFIG_TRACING")).1 = None)
  /\ (forall conf : Config,
        TracingSetUp conf ∈ run c ->
        conf = (JSONToTracingConfig c (Getenv c "K_CONFIG_TRACING")).1
        /\ ReceiverStarted ∈ run c)
  /\ (forall e : error,
        NewClientHTTP c = Some e ->
        run c = logging_notice c ++ [Logged ("Failed to create client: " +:+ e); Exit 1]).
Proof.
  split; [| split].
  - run_cases c; elems; intuition congruence.
  - intros conf0. run_cases c; elems; intuition congruence.
  - intros e He. unfold run, log_Fatal. by rewrite He.
Qed.

Lemma run_receiver_started_iff_witness :
  run no_client
  = logging_notice no_client ++ [Logged ("Failed to create client: " +:+ "unsupported option"); Exit 1].
Proof.
  apply (proj2 (proj2 (run_receiver_started_iff no_client))). reflexivity.
Defined.


Lemma ParseBool_spellings (str : string) :
  ParseBool str = true <-> str ∈ ["1"; "t"; "T"; "true"; "TRUE"; "True"]%string.
Proof. unfold ParseBool. apply bool_decide_eq_true. Qed.

(** X5: request logging is switched on, and its notice logged, exactly
    when [REQUEST_LOGGING_ENABLED] is one of 1, t, T, true, TRUE, True; the
    flag given to the client agrees with the notice; with the variable empty
    or not set there is no notice. *)
Theorem run_request_logging_flag {Config : Type} (c : Collaborators Config) :
  (Logged notice ∈ run c <->
     Getenv c "REQUEST_LOGGING_ENABLED" ∈ ["1"; "t"; "T"; "true"; "TRUE"; "True"]%string)
  /\ (forall b : bool,
        ClientCreated b ∈ run c ->
        (b = true <->
         Getenv c "REQUEST_LOGGING_ENABLED" ∈ ["1"; "t"; "T"; "true"; "TRUE"; "True"]%string))
  /\ (Getenv c "REQUEST_LOGGING_ENABLED" = ""%string -> Logged notice ∉ run c).
Proof.
  assert (Hnotice : Logged notice ∈ run c <-> ParseBool (Getenv c "REQUEST_LOGGING_ENABLED") = true).
  { unfold run, logging_notice, log_Fatal.
    destruct (ParseBool (Getenv c "REQUEST_LOGGING_ENABLED"));
    destruct (NewClientHTTP c) as [eclient|];
    destruct (JSONToTracingConfig c (Getenv c "K_CONFIG_TRACING")) as [conf [eparse|]];
    destruct (SetupPublishingWithStaticConfig c conf) as [etracer|];
    destruct (StartReceiver c) as [ereceiver|];
    cbn [app]; elems; unfold notice;
    split; try (intros _; by left); try done;
    intros H; repeat destruct H as [H | H]; try done; by injection H. }
  split; [| split].
  - by rewrite Hnotice, ParseBool_spellings.
  - intros b. rewrite <- ParseBool_spellings.
    unfold run, logging_notice, log_Fatal.
    destruct (ParseBool (Getenv c "REQUEST_LOGGING_ENABLED"));
    destruct (NewClientHTTP c) as [eclient|];
    destruct (JSONToTracingConfig c (Getenv c "K_CONFIG_TRACING")) as [conf [eparse|]];
    destruct (SetupPublishingWithStaticConfig c conf) as [etracer|];
    destruct (StartReceiver c) as [ereceiver|];
    cbn [app]; elems; intuition congruence.
  - intros Hunset. rewrite Hnotice, Hunset. done.
Qed.

Lemma run_request_logging_flag_witness :
  (Logged notice ∉ run tracer_fails)
  /\ Logged notice ∈ run (collaborators healthy_process).
Proof.
  split.
  - apply (proj2 (proj2 (run_request_logging_flag tracer_fails))). reflexivity.
  - apply (proj1 (run_request_logging_flag (collaborators healthy_process))).
    vm_compute. do 3 right. left.
Defined.


(** X2: [main] opens the path named by [LOG_FILE_PATH] when that variable
    is set, also to the empty string, and [/var/log/app.log] otherwise.
    When the file cannot be opened it panics and [run] is not entered.  When
    it can, the events of [run] are those of the process, and the deferred
    close of the log file runs exactly when [run] meets no failure: on every
    fatal exit the last event is the exit with status 1 and the file is not
    closed. *)
Theorem main_log_file {Config : Type} (p : Process Config) :
  head (main p)
  = Some (OpenLogFile (default "/var/log/app.log"%string (environ p !! "LOG_FILE_PATH"%string)))
  /\ (forall e : error,
        OpenFile p (getEnv (environ p) "LOG_FILE_PATH" "/var/log/app.log") = Some e ->
        main p = [OpenLogFile (getEnv (environ p) "LOG_FILE_PATH" "/var/log/app.log"); Panic e])
  /\ (OpenFile p (getEnv (environ p) "LOG_FILE_PATH" "/var/log/app.log") = None ->
        (CloseLogFile ∈ main p <-> succeeds (collaborators p))
        /\ (forall ev, Running ev ∈ main p <-> ev ∈ run (collaborators p))
        /\ last (main p)
           = Some (if exited (run (collaborators p))
                   then Running (Exit 1) else CloseLogFile)).
Proof.
  unfold main. split; [| split].
  - cbn [head]. unfold getEnv, LookupEnv. by destruct (environ p !! _).
  - intros e He. by rewrite He.
  - intros Hopen. rewrite Hopen. split; [| split].
    + rewrite <- exited_run. elems. rewrite elem_of_app, list_elem_of_fmap.
      destruct (exited (run (collaborators p))); elems; split.
      * intros [H | [(ev & H & _) | H]]; done.
      * done.
      * done.
      * intros _. right. right. by left.
    + intros ev. elems. rewrite elem_of_app, list_elem_of_fmap. split.
      * intros [H | [(ev' & H & Hin) | H]]; [done | by injection H as -> |].
        destruct (exited _); [by apply elem_of_nil in H |].
        apply elem_of_cons in H as [H | H]; [done | by apply elem_of_nil in H].
      * intros H. right. left. eauto.
    + rewrite last_cons.
      destruct (exited (run (collaborators p))) eqn:Hex.
      * rewrite app_nil_r, fmap_last, run_last, Hex. reflexivity.
      * by rewrite last_snoc.
Qed.

Lemma main_log_file_witness :
  main unopenable_process
  = [OpenLogFile ""%string; Panic "open : no such file or directory"%string]
  /\ CloseLogFile ∈ main healthy_process.
Proof.
  split.
  - apply (proj1 (proj2 (main_log_file unopenable_process))). reflexivity.
  - apply (proj1 (proj2 (proj2 (main_log_file healthy_process)) eq_refl)).
    repeat split.
Defined.


(** ** [display] on values that cannot be encoded *)

Section Unencodable.
Import cloudevents.

(** The loop over the entries fails exactly when an entry holds a value
    that cannot be encoded. *)
Lemma encodeMembers_fails_iff (sv : list (string * ExtValue)) : forall i : nat,
  (exists e, Marshal.encodeMembers i sv = inr e)
  <-> (exists k e, (k, ExtFailing e) ∈ sv).
Proof.
  induction sv as [|[k v] sv IH]; intros i; cbn [Marshal.encodeMembers].
  { split; [intros [e He]; discriminate | intros (k & e & H); by apply elem_of_nil in H]. }
  specialize (IH (S i)).
  destruct (Marshal.encodeValue v) as [tv | e0] eqn:Hv.
  - assert (Hok : forall k' e', (k', ExtFailing e') <> (k, v)).
    { intros k' e' [= _ <-]. discriminate. }
    destruct (Marshal.encodeMembers (S i) sv) as [tr | e1]; split.
    + intros [e He]. discriminate.
    + intros (k' & e' & Hin). apply elem_of_cons in Hin as [Hin | Hin]; [by apply Hok in Hin |].
      destruct (proj2 IH) as [e2 He2]; [by eauto | discriminate].
    + intros _. destruct (proj1 IH) as (k' & e' & Hin); [by eauto |].
      exists k', e'. by right.
    + intros _. by exists e1.
  - destruct v as [s | z | [|] | e1]; try discriminate. split.
    + intros _. exists k, e1. by left.
    + intros _. by exists e0.
Qed.

Lemma Marshal_fails_iff (m : gmap string ExtValue) :
  (exists e, (Marshal.Marshal (Some m)).2 = Some e)
  <-> (exists k e, m !! k = Some (ExtFailing e)).
Proof.
  cbn [Marshal.Marshal].
  pose proof (encodeMembers_fails_iff (Marshal.sortedEntries m) 0%nat) as Hm.
  assert (Hperm : forall k e, (k, ExtFailing e) ∈ Marshal.sortedEntries m
                              <-> m !! k = Some (ExtFailing e)).
  { intros k e. unfold Marshal.sortedEntries.
    rewrite merge_sort_Permutation. apply elem_of_map_to_list. }
  destruct (Marshal.encodeMembers 0 (Marshal.sortedEntries m)) as [t | e0]; cbn [snd]; split.
  - intros [e He]. discriminate.
  - intros (k & e & Hk). destruct (proj2 Hm) as [e1 He1]; [| discriminate].
    exists k, e. by apply Hperm.
  - intros _. destruct (proj1 Hm) as (k & e & Hin); [by eauto |].
    exists k, e. by apply Hperm.
  - intros _. by exists e0.
Qed.

(** X6: encoding the extensions fails exactly when some extension holds a
    value that cannot be encoded; [display] then still adds its entry, with
    nothing after the extensions key: the extensions that could be encoded
    are left out as well. *)
Theorem display_unencodable_extension (event : Event) (m : gmap string ExtValue) (st : World) :
  GetExtensions event = Some m ->
  ((exists k e, m !! k = Some (ExtFailing e))
   <-> (exists e, (Marshal.Marshal (GetExtensions event)).2 = Some e))
  /\ ((exists k e, m !! k = Some (ExtFailing e)) ->
      logged (display event st)
      = logged st ++ [display_format (string_of_list_byte (DataEncoded event))
                                     (GetType event) ""]).
Proof.
  intros Hm. rewrite Hm. split; [symmetry; apply Marshal_fails_iff |].
  intros Hbad. apply Marshal_fails_iff in Hbad as [e He].
  unfold display. rewrite Hm.
  destruct (Marshal.Marshal (Some m)) as [t err] eqn:HM. cbn [snd] in He. subst err.
  apply Marshal_error in HM as ->. reflexivity.
Qed.

Lemma display_unencodable_extension_witness :
  logged (display mixed_event idle) = logged idle ++ [display_format "{}" "sample.created" ""].
Proof.
  apply (proj2 (display_unencodable_extension mixed_event
           (<[ "priority"%string := ExtInt 1 ]>
              {[ "ratio"%string := ExtFailing "json: unsupported value: NaN" ]})
           idle eq_refl)).
  exists "ratio"%string, "json: unsupported value: NaN"%string. vm_compute. reflexivity.
Defined.

End Unencodable.

(** ** The keys of the logged snapshot *)

Lemma filter_sublist {A} (P : A -> bool) (l : list A) : List.filter P l `sublist_of` l.
Proof.
  induction l as [|x l IH]; simpl; [constructor |].
  destruct (P x); by constructor.
Qed.

(** X7: the keys of a rendered snapshot follow the order of the fields of
    [LoggableRequest], none occurs twice, there are between two and thirteen
    of them, and the last two are always the remote address and the request
    target. *)
Theorem snapshot_keys_in_declared_order (r : LoggableRequest) :
  Snapshot.keys r `sublist_of` declared_keys
  /\ NoDup (Snapshot.keys r)
  /\ (2 <= length (Snapshot.keys r) <= 13)%nat
  /\ (exists front : list string, Snapshot.keys r = front ++ ["remoteAddr"; "requestURI"]%string).
Proof.
  assert (Hsub : Snapshot.keys r `sublist_of` declared_keys).
  { unfold Snapshot.keys, Snapshot.rendered, declared_keys. rewrite <- (fields_names r).
    apply fmap_sublist, filter_sublist. }
  assert (Htail : exists front : list string,
             Snapshot.keys r = front ++ ["remoteAddr"; "requestURI"]%string).
  { unfold Snapshot.keys, Snapshot.rendered, Snapshot.fields.
    change [?a; ?b; ?c; ?d; ?e; ?f; ?g; ?h; ?i; ?j; ?k; ?y; ?z]
      with ([a; b; c; d; e; f; g; h; i; j; k] ++ [y; z]).
    rewrite List.filter_app, fmap_app. eexists. f_equal. }
  split; [done |]. split; [| split; [| done]].
  - eapply sublist_NoDup; [| exact Hsub]. apply (bool_decide_unpack _). by vm_compute.
  - split.
    + destruct Htail as [front ->]. rewrite length_app. simpl. lia.
    + apply sublist_length in Hsub. exact Hsub.
Qed.

Lemma string_of_list_byte_nil (l : list byte) :
  string_of_list_byte l = ""%string <-> l = [].
Proof.
  split; [| by intros ->].
  intros H. apply (f_equal list_byte_of_string) in H.
  by rewrite list_byte_of_string_of_list_byte in H.
Qed.

Lemma length_zero_false (s : string) : (String.length s =? 0)%nat = false <-> s <> ""%string.
Proof. destruct s; simpl; split; congruence. Qed.

Lemma toReq_fields (req : http.Request) (st : World) :
  Snapshot.fields (toReq req st).1.1
  = [ Snapshot.mkField "method" true (Snapshot.GoString (http.Method req));
      Snapshot.mkField "URL" true (Snapshot.GoURLPtr (http.URL_ req));
      Snapshot.mkField "proto" true (Snapshot.GoString (http.Proto req));
      Snapshot.mkField "protoMajor" true (Snapshot.GoInt (http.ProtoMajor req));
      Snapshot.mkField "protoMinor" true (Snapshot.GoInt (http.ProtoMinor req));
      Snapshot.mkField "headers" true (Snapshot.GoHeader (http.Header_ req));
      Snapshot.mkField "body" true
        (Snapshot.GoString (string_of_list_byte (rc_data (http.Body req))));
      Snapshot.mkField "contentLength" true (Snapshot.GoInt (http.ContentLength req));
      Snapshot.mkField "transferEncoding" true (Snapshot.GoStrings (http.TransferEncoding req));
      Snapshot.mkField "host" true (Snapshot.GoString (http.Host req));
      Snapshot.mkField "trailer" true
        (Snapshot.GoHeader (http.Trailer (http.after_ReadAll req)));
      Snapshot.mkField "remoteAddr" false (Snapshot.GoString (http.RemoteAddr req));
      Snapshot.mkField "requestURI" false (Snapshot.GoString (http.RequestURI req)) ]%string.
Proof.
  unfold toReq, ReadAll, http.after_ReadAll. by destruct (rc_end (http.Body req)).
Qed.

Lemma logged_key_iff (req : http.Request) (st : World) (f : Snapshot.Field) :
  f ∈ Snapshot.fields (toReq req st).1.1 ->
  Snapshot.omitEmpty f = true ->
  Snapshot.name f ∈ Snapshot.keys (toReq req st).1.1
  <-> Snapshot.isEmptyValue (Snapshot.value f) = false.
Proof.
  intros Hf Homit. rewrite (key_rendered_iff _ f Hf).
  unfold Snapshot.skipped. by rewrite Homit.
Qed.

Ltac key_of req st f :=
  etransitivity;
  [ apply (logged_key_iff req st f); [rewrite toReq_fields, !elem_of_cons; tauto | done]
  | cbn [Snapshot.value Snapshot.isEmptyValue] ].

(** X8: which keys the snapshot of a request shows: the body key exactly
    when at least one byte was read from the body, the content length
    exactly when it is not zero (so an unknown length, -1, is shown), each
    of method, URL, headers, transfer encoding, host and protocol fields
    exactly when the request's field is not empty, nil or zero, and the
    trailer key exactly when the request has trailers once the body has
    been read: its own, or, when the read reached the end of the body, those
    that followed the body. *)
Theorem logged_snapshot_keys (req : http.Request) (st : World) :
  ("body"%string ∈ Snapshot.keys (toReq req st).1.1 <-> rc_data (http.Body req) <> [])
  /\ ("contentLength"%string ∈ Snapshot.keys (toReq req st).1.1 <-> http.ContentLength req <> 0)
  /\ ("method"%string ∈ Snapshot.keys (toReq req st).1.1 <-> http.Method req <> ""%string)
  /\ ("URL"%string ∈ Snapshot.keys (toReq req st).1.1 <-> http.URL_ req <> None)
  /\ ("headers"%string ∈ Snapshot.keys (toReq req st).1.1 <-> http.Header_ req <> ∅)
  /\ ("trailer"%string ∈ Snapshot.keys (toReq req st).1.1
      <-> match rc_end (http.Body req) with
          | None => rc_trailer (http.Body req) ∪ http.Trailer req
          | Some _ => http.Trailer req
          end <> ∅)
  /\ ("transferEncoding"%string ∈ Snapshot.keys (toReq req st).1.1
      <-> http.TransferEncoding req <> [])
  /\ ("host"%string ∈ Snapshot.keys (toReq req st).1.1 <-> http.Host req <> ""%string)
  /\ ("proto"%string ∈ Snapshot.keys (toReq req st).1.1 <-> http.Proto req <> ""%string)
  /\ ("protoMajor"%string ∈ Snapshot.keys (toReq req st).1.1 <-> http.ProtoMajor req <> 0)
  /\ ("protoMinor"%string ∈ Snapshot.keys (toReq req st).1.1 <-> http.ProtoMinor req <> 0).
Proof.
  repeat match goal with |- _ /\ _ => split end.
  - key_of req st (Snapshot.mkField "body" true
      (Snapshot.GoString (string_of_list_byte (rc_data (http.Body req))))).
    by rewrite length_zero_false, string_of_list_byte_nil.
  - key_of req st (Snapshot.mkField "contentLength" true (Snapshot.GoInt (http.ContentLength req))).
    apply Z.eqb_neq.
  - key_of req st (Snapshot.mkField "method" true (Snapshot.GoString (http.Method req))).
    apply length_zero_false.
  - key_of req st (Snapshot.mkField "URL" true (Snapshot.GoURLPtr (http.URL_ req))).
    apply bool_decide_eq_false.
  - key_of req st (Snapshot.mkField "headers" true (Snapshot.GoHeader (http.Header_ req))).
    by rewrite Nat.eqb_neq, map_size_empty_iff.
  - key_of req st (Snapshot.mkField "trailer" true
      (Snapshot.GoHeader (http.Trailer (http.after_ReadAll req)))).
    by rewrite Nat.eqb_neq, map_size_empty_iff, after_ReadAll_Trailer.
  - key_of req st (Snapshot.mkField "transferEncoding" true
      (Snapshot.GoStrings (http.TransferEncoding req))).
    by rewrite Nat.eqb_neq, length_zero_iff_nil.
  - key_of req st (Snapshot.mkField "host" true (Snapshot.GoString (http.Host req))).
    apply length_zero_false.
  - key_of req st (Snapshot.mkField "proto" true (Snapshot.GoString (http.Proto req))).
    apply length_zero_false.
  - key_of req st (Snapshot.mkField "protoMajor" true (Snapshot.GoInt (http.ProtoMajor req))).
    apply Z.eqb_neq.
  - key_of req st (Snapshot.mkField "protoMinor" true (Snapshot.GoInt (http.ProtoMinor req))).
    apply Z.eqb_neq.
Qed.

Lemma logged_snapshot_keys_witness :
  "body"%string ∈ Snapshot.keys (toReq delivery idle).1.1
  /\ ("body"%string ∉ Snapshot.keys (toReq probe idle).1.1)
  /\ http.Trailer trailing_delivery = ∅
  /\ "trailer"%string ∈ Snapshot.keys (toReq trailing_delivery idle).1.1.
Proof.
  split; [| split; [| split; [reflexivity |]]].
  - apply (proj1 (logged_snapshot_keys delivery idle)). discriminate.
  - intros H. apply (proj1 (logged_snapshot_keys probe idle)) in H. by apply H.
  - apply (proj1 (proj2 (proj2 (proj2 (proj2 (proj2
             (logged_snapshot_keys trailing_delivery idle))))))).
    cbn. intros H. apply (f_equal (fun m => m !! "X-Checksum"%string)) in H.
    rewrite lookup_union, lookup_singleton_eq, lookup_empty in H. discriminate.
Defined.

(** X9: [toReq] is idempotent on what it returns: applied to the request
    it produced, it leaves that request as it is, takes the same snapshot
    and logs no read warning, since the stream it put in place ends at end
    of file.  A second pass of [logRequest] therefore hands on the same
    request and logs the encoding of the same snapshot once more, without a
    read warning. *)
Theorem toReq_idempotent (req : http.Request) (st st' : World) :
  (toReq (toReq req st).1.2 st').1.2 = (toReq req st).1.2
  /\ (toReq (toReq req st).1.2 st').1.1 = (toReq req st).1.1
  /\ logged (toReq (toReq req st).1.2 st').2 = logged st'
  /\ closed (toReq (toReq req st).1.2 st').2 = closed st' ++ [mkReadCloser [] None]
  /\ (forall MarshalIndent : LoggableRequest -> list byte * option error,
        (logRequest MarshalIndent (logRequest MarshalIndent req st).1 st').1
        = (logRequest MarshalIndent req st).1
        /\ logged (logRequest MarshalIndent (logRequest MarshalIndent req st).1 st').2
           = logged st'
             ++ match (MarshalIndent (toReq req st).1.1).2 with
                | Some e => ["failed to marshal request " +:+ e]
                | None => []
                end
             ++ [string_of_list_byte (MarshalIndent (toReq req st).1.1).1]).
Proof.
  assert (Hsnap : forall st0, (toReq (toReq req st).1.2 st0).1.1 = (toReq req st).1.1).
  { intros st0. unfold toReq, ReadAll, http.after_ReadAll, http.mergeSetHeader.
    destruct (rc_end (http.Body req)); cbn; by rewrite ?(left_id_L ∅ (∪)). }
  assert (Hreq : forall st0, (toReq (toReq req st).1.2 st0).1.2 = (toReq req st).1.2).
  { intros st0. unfold toReq, ReadAll, http.after_ReadAll, http.mergeSetHeader.
    destruct (rc_end (http.Body req)); cbn; by rewrite ?(left_id_L ∅ (∪)). }
  split; [exact (Hreq st') | split; [exact (Hsnap st') | split; [| split]]].
  - unfold toReq, ReadAll. by destruct (rc_end (http.Body req)).
  - unfold toReq, ReadAll. by destruct (rc_end (http.Body req)).
  - intros MarshalIndent. rewrite !logRequest_request.
    rewrite <- (toReq_request req st). split.
    + rewrite <- (toReq_request _ st'). apply Hreq.
    + rewrite logRequest_logged, Hsnap. by rewrite toReq_request.
Qed.
